(** * van-gogh: the shader transition engine, the blob cursor and the loader scene

    A shallow embedding of [js/background.js], [js/shaders.js],
    [js/blob-cursor.js] and [js/loader-scene.js].

    Conventions of the embedding.
    - A JavaScript number is an exact rational ([Q]); the rounding of IEEE
      doubles is not modelled, except that the values the transition
      progress takes are computed once more on binary64 floats.  Values the
      code copies are compared with Leibniz equality, values the code
      computes with [==], [<=] on [Q].
    - A method that mutates [this] is a function from the object's state to
      an [Outcome]: the state it leaves behind, or the exception it raised
      together with the state at the moment of the throw.
    - A JavaScript object used as a dictionary ([this.textures]) is a
      [gmap string _]; a missing key is [undefined].  Properties inherited
      from [Object.prototype] are outside the model.
    - [null] and [undefined] in a slot that later holds an object are [None]. *)

From Stdlib Require Import QArith Qminmax Qabs Qpower Qround Lia Lqa PrimFloat.
From stdpp Require Import gmap strings list.

#[local] Set Warnings "-clear-no-such-hyp".

(** ** Outcomes of a method call *)

Inductive JsError : Type :=
| TypeError      (* property access on null or undefined *)
| NotFoundError. (* removeChild of a node that is not a child *)

Inductive Outcome (S : Type) : Type :=
| Done (s : S)
| Raised (e : JsError) (s : S).
Arguments Done {S} s.
Arguments Raised {S} e s.

Definition andThen {S : Type} (o : Outcome S) (k : S -> Outcome S) : Outcome S :=
  match o with
  | Done s => k s
  | Raised e s => Raised e s
  end.

(** The object after a call, whether the call returned or threw. *)
Definition stateOf {S : Type} (o : Outcome S) : S :=
  match o with
  | Done s => s
  | Raised _ s => s
  end.

(** ** js/background.js *)

Module Background.

(** A texture object.  Two textures are the same object ([===]) exactly when
    they are equal here: the loader creates one object per URL, and
    [new THREE.Texture()] creates the blank one. *)
Inductive Texture : Type :=
| TexImage (url : string)
| TexBlank.

#[global] Instance Texture_eq_dec : EqDecision Texture.
Proof. solve_decision. Defined.

(** [CONFIG] *)
Definition transitionSpeed : Q := 1 # 100.
Definition timeStep : Q := 1 # 100.
Definition url_default : string := "images/backgrounds/starry-night.jpg".
Definition url_orange : string := "images/backgrounds/orangeSN.png".
Definition url_graduation : string := "images/VG/graduationVG.png".

(** [material.uniforms] *)
Record Uniforms : Type := mkUniforms {
  uTex1 : option Texture;
  uTex2 : option Texture;
  uMix : Q;
  uTime : Q;
  uResolution : Q * Q
}.

(** The fields of a [Background] instance the transition engine uses. *)
Record State : Type := mkState {
  textures : gmap string Texture;
  targetTexture : option Texture;
  currentSourceTexture : option Texture;
  transitionProgress : Q;
  isTransitioning : bool;
  time : Q;
  material : option Uniforms
}.

(** The constructor, before [init] has loaded anything. *)
Definition constructed : State :=
  {| textures := ∅;
     targetTexture := None;
     currentSourceTexture := None;
     transitionProgress := 0;
     isTransitioning := false;
     time := 0;
     material := None |}.

(** *** loadTextures *)

(** What [THREE.TextureLoader.load] does with one URL: it calls [onLoad]
    with a texture or [onError] with an error. *)
Inductive LoadEvent : Type :=
| OnLoad (tex : Texture)
| OnError.

(** How a promise settles. *)
Inductive Settled (A : Type) : Type :=
| Resolved (a : A)
| Rejected.
Arguments Resolved {A} a.
Arguments Rejected {A}.

(** [loadTex]: both callbacks call [resolve]; the error callback resolves
    with [null]. *)
Definition loadTex (ev : LoadEvent) : Settled (option Texture) :=
  match ev with
  | OnLoad tex => Resolved (Some tex)
  | OnError => Resolved None
  end.

(** [Promise.all] over the three loads: rejected as soon as one is. *)
Definition promiseAll3 {A : Type} (a b c : Settled A) : Settled (A * A * A) :=
  match a, b, c with
  | Resolved x, Resolved y, Resolved z => Resolved (x, y, z)
  | _, _, _ => Rejected
  end.

(** [a || b] on a texture-or-null. *)
Definition orElse (a : option Texture) (b : Texture) : Texture :=
  match a with
  | Some t => t
  | None => b
  end.

(** The body of [loadTextures] after the [await]. *)
Definition bindTextures (loaded : option Texture * option Texture * option Texture)
    (s : State) : State :=
  let '(texDefault, texOrange, texGrad) := loaded in
  let d := orElse texDefault TexBlank in
  let m1 := <["default" := d]> (textures s) in
  let m2 := <["orange" := orElse texOrange d]> m1 in
  let m3 := <["graduation" := orElse texGrad d]> m2 in
  {| textures := m3;
     targetTexture := m3 !! "default";
     currentSourceTexture := m3 !! "default";
     transitionProgress := transitionProgress s;
     isTransitioning := isTransitioning s;
     time := time s;
     material := material s |}.

Definition loadTextures (evDefault evOrange evGrad : LoadEvent) (s : State)
    : Settled State :=
  match promiseAll3 (loadTex evDefault) (loadTex evOrange) (loadTex evGrad) with
  | Resolved loaded => Resolved (bindTextures loaded s)
  | Rejected => Rejected
  end.

(** *** setupMaterial *)

Definition setupMaterial (innerWidth innerHeight : Q) (s : State) : State :=
  {| textures := textures s;
     targetTexture := targetTexture s;
     currentSourceTexture := currentSourceTexture s;
     transitionProgress := transitionProgress s;
     isTransitioning := isTransitioning s;
     time := time s;
     material := Some {| uTex1 := textures s !! "default";
                         uTex2 := textures s !! "default";
                         uMix := 0;
                         uTime := 0;
                         uResolution := (innerWidth, innerHeight) |} |}.

(** *** setTarget *)

Definition setTarget (textureName : string) (s : State) : Outcome State :=
  match textures s !! textureName with
  | None => Done s
  | Some newTex =>
      if decide (targetTexture s = Some newTex) then Done s
      else
        let src := targetTexture s in
        let s1 := {| textures := textures s;
                     targetTexture := Some newTex;
                     currentSourceTexture := src;
                     transitionProgress := transitionProgress s;
                     isTransitioning := isTransitioning s;
                     time := time s;
                     material := material s |} in
        match material s with
        | None => Raised TypeError s1
        | Some u =>
            Done {| textures := textures s;
                    targetTexture := Some newTex;
                    currentSourceTexture := src;
                    transitionProgress := 0;
                    isTransitioning := true;
                    time := time s;
                    material := Some {| uTex1 := src;
                                        uTex2 := Some newTex;
                                        uMix := 0;
                                        uTime := uTime u;
                                        uResolution := uResolution u |} |}
        end
  end.

(** *** animate *)

(** The transition block of [animate]: the new progress and flag. *)
Definition advance (p : Q) : Q * bool :=
  let p' := (p + transitionSpeed)%Q in
  if Qle_bool 1 p' then (1%Q, false) else (p', true).

(** The same block on binary64 doubles, the numbers JavaScript computes
    with, and the progress after each of [n] frames of a transition that
    starts at [p]. *)
Definition advanceDouble (p : float) : float * bool :=
  let p' := (p + 0x1.47ae147ae147bp-7)%float in   (* 0.01 *)
  if (1 <=? p')%float then (1%float, false) else (p', true).

Fixpoint progressTrace (n : nat) (p : float) (transitioning : bool) : list float :=
  match n with
  | O => [p]
  | S k =>
      p :: (if transitioning
            then let '(q, flag) := advanceDouble p in progressTrace k q flag
            else progressTrace k p false)
  end.

(** Whether a list of doubles is non-decreasing and within [0, 1]. *)
Fixpoint risesWithinUnit (l : list float) : bool :=
  match l with
  | [] => true
  | p :: rest =>
      (0 <=? p)%float && (p <=? 1)%float
      && match rest with
         | [] => true
         | q :: _ => (p <=? q)%float
         end
      && risesWithinUnit rest
  end.

(** One tick.  [requestAnimationFrame] and [renderer.render] leave the
    fields above alone; the time stamp the browser passes to the callback is
    dropped by the arrow function and never read. *)
Definition animate (s : State) : Outcome State :=
  let t := (time s + timeStep)%Q in
  match material s with
  | None =>
      Raised TypeError
        {| textures := textures s;
           targetTexture := targetTexture s;
           currentSourceTexture := currentSourceTexture s;
           transitionProgress := transitionProgress s;
           isTransitioning := isTransitioning s;
           time := t;
           material := None |}
  | Some u =>
      if isTransitioning s then
        let '(p, flag) := advance (transitionProgress s) in
        Done {| textures := textures s;
                targetTexture := targetTexture s;
                currentSourceTexture := currentSourceTexture s;
                transitionProgress := p;
                isTransitioning := flag;
                time := t;
                material := Some {| uTex1 := uTex1 u;
                                    uTex2 := uTex2 u;
                                    uMix := p;
                                    uTime := t;
                                    uResolution := uResolution u |} |}
      else
        Done {| textures := textures s;
                targetTexture := targetTexture s;
                currentSourceTexture := currentSourceTexture s;
                transitionProgress := transitionProgress s;
                isTransitioning := false;
                time := t;
                material := Some {| uTex1 := uTex1 u;
                                    uTex2 := uTex2 u;
                                    uMix := uMix u;
                                    uTime := t;
                                    uResolution := uResolution u |} |}
  end.

(** *** handleResize *)

Definition handleResize (innerWidth innerHeight : Q) (s : State) : State :=
  match material s with
  | None => s
  | Some u =>
      {| textures := textures s;
         targetTexture := targetTexture s;
         currentSourceTexture := currentSourceTexture s;
         transitionProgress := transitionProgress s;
         isTransitioning := isTransitioning s;
         time := time s;
         material := Some {| uTex1 := uTex1 u;
                             uTex2 := uTex2 u;
                             uMix := uMix u;
                             uTime := uTime u;
                             uResolution := (innerWidth, innerHeight) |} |}
  end.

(** *** init and the events that follow it *)

(** [init]: [loadTextures().then(() => { setupMaterial(); setupInteractions();
    animate(); })].  When the promise is rejected the callback never runs. *)
Definition init (evDefault evOrange evGrad : LoadEvent) (innerWidth innerHeight : Q)
    : Outcome State :=
  match loadTextures evDefault evOrange evGrad constructed with
  | Resolved s => animate (setupMaterial innerWidth innerHeight s)
  | Rejected => Done constructed
  end.

(** What can happen to a running instance: a call of [setTarget] (from the
    hover listeners of [setupInteractions] or from the owner of the handle
    [initBackground] returns), an animation frame, a resize of the window. *)
Inductive Event : Type :=
| EvSetTarget (textureName : string)
| EvFrame
| EvResize (innerWidth innerHeight : Q).

Definition handle (ev : Event) (s : State) : Outcome State :=
  match ev with
  | EvSetTarget textureName => setTarget textureName s
  | EvFrame => animate s
  | EvResize w h => Done (handleResize w h s)
  end.

Fixpoint run (evs : list Event) (s : State) : Outcome State :=
  match evs with
  | [] => Done s
  | ev :: rest => andThen (handle ev s) (run rest)
  end.

(** The states of an instance from the moment [setupMaterial] has run; the
    first [animate] of [init] is the first [EvFrame]. *)
Inductive reachable : State -> Prop :=
| reach_setup evD evO evG w h s :
    loadTextures evD evO evG constructed = Resolved s ->
    reachable (setupMaterial w h s)
| reach_step s ev :
    reachable s -> reachable (stateOf (handle ev s)).

(** What every operation keeps true once the material exists: the blend
    factor of the shader is the progress, the samplers are the source and
    the target, and the progress is a fraction. *)
Record Inv (s : State) : Prop := mkInv {
  inv_material : is_Some (material s);
  inv_mix : uMix <$> material s = Some (transitionProgress s);
  inv_tex1 : material s ≫= uTex1 = currentSourceTexture s;
  inv_tex2 : material s ≫= uTex2 = targetTexture s;
  inv_lo : (0 <= transitionProgress s)%Q;
  inv_hi : (transitionProgress s <= 1)%Q
}.

(** *** Scenarios *)

(** All three images loaded, a 1920 x 1080 window, the material set up. *)
Definition allLoaded : State :=
  bindTextures (Some (TexImage url_default), Some (TexImage url_orange),
                Some (TexImage url_graduation)) constructed.
Definition settled : State := setupMaterial 1920 1080 allLoaded.

(** The pointer enters the first card; [n] frames later. *)
Definition towardsOrange (n : nat) : State :=
  stateOf (run (EvSetTarget "orange" :: replicate n EvFrame) settled).

Definition midFlight : State := towardsOrange 50.
Definition lastLeg : State := towardsOrange 99.
Definition arrived : State := towardsOrange 100.

(** The window size of the last resize among [evs], or [r] when there is
    none. *)
Fixpoint lastResize (evs : list Event) (r : Q * Q) : Q * Q :=
  match evs with
  | [] => r
  | EvResize w h :: rest => lastResize rest (w, h)
  | _ :: rest => lastResize rest r
  end.

(** The names [loadTextures] registers. *)
Definition textureNames : list string := ["default"; "orange"; "graduation"].

(** *** setupInteractions *)

(** The four hover listeners; a card that is not in the document gets
    none. *)
Inductive Hover : Type :=
| Enter1 | Leave1    (* mouseenter, mouseleave on card1-base *)
| Enter2 | Leave2.   (* mouseenter, mouseleave on card2-base *)

Definition hoverTarget (card1 card2 : bool) (ev : Hover) : option string :=
  match ev with
  | Enter1 => if card1 then Some "orange" else None
  | Leave1 => if card1 then Some "default" else None
  | Enter2 => if card2 then Some "graduation" else None
  | Leave2 => if card2 then Some "default" else None
  end.

(** What a hover event does to the instance. *)
Definition hover (card1 card2 : bool) (ev : Hover) : list Event :=
  match hoverTarget card1 card2 ev with
  | Some textureName => [EvSetTarget textureName]
  | None => []
  end.

(** The property names every object inherits from [Object.prototype].
    [this.textures[name]] finds a function (or the prototype) under them, not
    [undefined]; the registry as a [gmap] does not cover them, so statements
    about unregistered names leave them out. *)
Definition objectPrototypeNames : list string :=
  ["constructor"; "toString"; "toLocaleString"; "valueOf"; "hasOwnProperty";
   "isPrototypeOf"; "propertyIsEnumerable"; "__proto__"; "__defineGetter__";
   "__defineSetter__"; "__lookupGetter__"; "__lookupSetter__"].

End Background.

(** ** js/shaders.js: the cross-fade of the fragment shader *)

Module Shaders.
Import Background.

(** GLSL [mix(x, y, a)] *)
Definition mix (x y a : Q) : Q := (x * (1 - a) + y * a)%Q.

Section FragmentShader.
(** One colour channel of [texture2D(sampler, coord)]. *)
Variable texture2D : option Texture -> Q * Q -> Q.
(** [uv + distortion]: the cover-mode scaling and the noise flow, which
    read [uTime], [uResolution] and [vUv] only. *)
Variable distorted : Q -> Q * Q -> Q * Q -> Q * Q.
(** [1.0 - length(vUv - 0.5) * 0.4] *)
Variable vignette : Q * Q -> Q.

(** A colour channel of [gl_FragColor] at the fragment [vUv]. *)
Definition fragColor (u : Uniforms) (vUv : Q * Q) : Q :=
  let coord := distorted (uTime u) (uResolution u) vUv in
  let c1 := texture2D (uTex1 u) coord in
  let c2 := texture2D (uTex2 u) coord in
  (mix c1 c2 (uMix u) * vignette vUv)%Q.

(** What one texture alone looks like under the same distortion. *)
Definition alone (t : option Texture) (u : Uniforms) (vUv : Q * Q) : Q :=
  (texture2D t (distorted (uTime u) (uResolution u) vUv) * vignette vUv)%Q.
End FragmentShader.

(** A flat test pattern: every texture is one grey level, no distortion,
    no vignette. *)
Definition flat (t : option Texture) (coord : Q * Q) : Q :=
  match t with
  | Some (TexImage url) =>
      if decide (url = url_default) then 0
      else if decide (url = url_orange) then 1
      else 1 # 2
  | Some TexBlank => 0
  | None => 0
  end.

Definition undistorted (uTime : Q) (uResolution vUv : Q * Q) : Q * Q := vUv.
Definition noVignette (vUv : Q * Q) : Q := 1.
(** The middle of the screen. *)
Definition centre : Q * Q := (1 # 2, 1 # 2)%Q.

(** *** The rest of [main] and [noise] that is rational arithmetic *)

(** [float imageAspect = 1.77] *)
Definition imageAspect : Q := 177 # 100.

(** "Scale UVs to cover": the texture coordinate before the flow distortion
    is added. *)
Definition coverUv (uResolution vUv : Q * Q) : Q * Q :=
  let screenAspect := (fst uResolution / snd uResolution)%Q in
  if Qle_bool screenAspect imageAspect then
    (* screenAspect > imageAspect is false: crop the sides *)
    let scale := (screenAspect / imageAspect)%Q in
    (((fst vUv - (1 # 2)) * scale + (1 # 2))%Q, snd vUv)
  else
    let scale := (imageAspect / screenAspect)%Q in
    (fst vUv, ((snd vUv - (1 # 2)) * scale + (1 # 2))%Q).

(** GLSL [floor] and [fract] *)
Definition floorQ (q : Q) : Q := inject_Z (Qfloor q).
Definition fract (q : Q) : Q := (q - floorQ q)%Q.

(** [f * f * (3.0 - 2.0 * f)] *)
Definition smooth (f : Q) : Q := (f * f * (3 - 2 * f))%Q.

Section Noise.
(** [random]: [fract(sin(dot(st, vec2(12.9898, 78.233))) * 43758.5453123)] *)
Variable random : Q * Q -> Q.

Definition noise (st : Q * Q) : Q :=
  let i := (floorQ (fst st), floorQ (snd st)) in
  let f := (fract (fst st), fract (snd st)) in
  let a := random i in
  let b := random ((fst i + 1)%Q, (snd i + 0)%Q) in
  let c := random ((fst i + 0)%Q, (snd i + 1)%Q) in
  let d := random ((fst i + 1)%Q, (snd i + 1)%Q) in
  let u := (smooth (fst f), smooth (snd f)) in
  (mix a b (fst u) + (c - a) * snd u * (1 - fst u) + (d - b) * fst u * snd u)%Q.
End Noise.

(** A stand-in for [random] in the scenarios: the dot product of the
    shader, folded into a fraction without the sine. *)
Definition hash (st : Q * Q) : Q :=
  fract (fst st * (129898 # 10000) + snd st * (78233 # 1000)).

End Shaders.

(** ** js/blob-cursor.js *)

Module BlobCursor.

(** [CONFIG] *)
Record Config : Type := mkConfig {
  count : nat;
  size : Q;
  lagPrimary : Q;
  lagSecondary : Q
}.

Definition desktop : Config :=
  {| count := 12; size := 180; lagPrimary := 1 # 4; lagSecondary := 1 # 2 |}.
Definition mobile : Config :=
  {| count := 5; size := 110; lagPrimary := 1 # 2; lagSecondary := 7 # 10 |}.
Definition initialPosition : Q := - (500).
Definition fadeOutDelay : Q := 500.
Definition velocityMultiplier : Q := 12 # 10.
(** The literals of [animate]. *)
Definition frameInterval : Q := 1667 # 100.
Definition maxDelta : Q := 2.
Definition velocityDecay : Q := 9 # 10.

(** An [{x, y}] pair: [this.mouse], [this.target], [this.velocity],
    [this.lastPosition], and the [clientX], [clientY] of a mouse event or of
    a touch. *)
Record Point : Type := mkPoint { x : Q; y : Q }.

(** The SVG circle of a blob: the attributes and the style the code writes. *)
Record Circle : Type := mkCircle {
  node : nat;
  cx : option Q;
  cy : option Q;
  r : Q;
  opacity : option Q
}.

(** An entry of [this.blobs]; [pos] is its [x] and [y]. *)
Record Blob : Type := mkBlob {
  el : Circle;
  pos : Point;
  radius : Q
}.

(** A callback handed to [setTimeout]. *)
Inductive Timeout : Type :=
| FadeOut    (* handleTouchEnd *)
| Recenter.  (* handleOrientationChange *)

(** The fields the constructor sets under "Position state". *)
Record PositionState : Type := mkPosition {
  mouse : Point;
  target : Point;
  velocity : Point;
  lastPosition : Point
}.

(** "Touch state" *)
Record TouchState : Type := mkTouch {
  isTouching : bool;
  touchHoldTimer : option positive;
  fadeOutTimer : option positive;
  isActive : bool
}.

(** "Animation state" *)
Record AnimationState : Type := mkAnimation {
  rafId : option positive;
  lastTime : Q
}.

(** The part of the browser the cursor talks to: the animation frame
    callbacks requested and not yet run or cancelled, the pending timeouts,
    the next handle the browser hands out (handles are positive integers,
    so a stored handle is truthy), and the circles under [this.blobGroup]. *)
Record Browser : Type := mkBrowser {
  frames : gset positive;
  timers : gmap positive Timeout;
  nextHandle : positive;
  blobGroup : list nat
}.

Record State : Type := mkState {
  blobs : list Blob;
  isTouch : bool;
  position : PositionState;
  touch : TouchState;
  animation : AnimationState;
  browser : Browser
}.

(** [this.config] *)
Definition config (s : State) : Config :=
  if isTouch s then mobile else desktop.

(** [requestAnimationFrame], [cancelAnimationFrame], [setTimeout],
    [clearTimeout] *)
Definition requestAnimationFrame (b : Browser) : positive * Browser :=
  (nextHandle b,
   {| frames := {[nextHandle b]} ∪ frames b;
      timers := timers b;
      nextHandle := Pos.succ (nextHandle b);
      blobGroup := blobGroup b |}).

Definition cancelAnimationFrame (h : positive) (b : Browser) : Browser :=
  {| frames := frames b ∖ {[h]};
     timers := timers b;
     nextHandle := nextHandle b;
     blobGroup := blobGroup b |}.

Definition setTimeout (cb : Timeout) (b : Browser) : positive * Browser :=
  (nextHandle b,
   {| frames := frames b;
      timers := <[nextHandle b := cb]> (timers b);
      nextHandle := Pos.succ (nextHandle b);
      blobGroup := blobGroup b |}).

Definition clearTimeout (h : positive) (b : Browser) : Browser :=
  {| frames := frames b;
     timers := delete h (timers b);
     nextHandle := nextHandle b;
     blobGroup := blobGroup b |}.

(** [if (handle) cancel(handle)] *)
Definition whenSet (h : option positive) (cancel : positive -> Browser -> Browser)
    (b : Browser) : Browser :=
  match h with
  | Some i => cancel i b
  | None => b
  end.

(** [setBlobOpacity] *)
Definition withOpacity (o : Q) (b : Blob) : Blob :=
  {| el := {| node := node (el b); cx := cx (el b); cy := cy (el b);
              r := r (el b); opacity := Some o |};
     pos := pos b;
     radius := radius b |}.

Definition setBlobOpacity (o : Q) (bs : list Blob) : list Blob :=
  map (withOpacity o) bs.

(** [createBlobs]: the circles for the indices [i], [i+1], ... *)
Fixpoint createFrom (cfg : Config) (i n : nat) : list Blob :=
  match n with
  | O => []
  | S k =>
      let radius := (size cfg * (1 - inject_Z (Z.of_nat i)
                                       / inject_Z (Z.of_nat (count cfg + 2))))%Q in
      {| el := {| node := i; cx := None; cy := None; r := radius; opacity := None |};
         pos := {| x := initialPosition; y := initialPosition |};
         radius := radius |} :: createFrom cfg (S i) k
  end.

Definition createBlobs (touchDevice : bool) (cfg : Config) : list Blob :=
  let bs := createFrom cfg 0 (count cfg) in
  if touchDevice then setBlobOpacity 0 bs else bs.

(** Small record updates. *)
Definition withPosition (p : PositionState) (s : State) : State :=
  {| blobs := blobs s; isTouch := isTouch s; position := p; touch := touch s;
     animation := animation s; browser := browser s |}.
Definition withTouch (t : TouchState) (s : State) : State :=
  {| blobs := blobs s; isTouch := isTouch s; position := position s; touch := t;
     animation := animation s; browser := browser s |}.
Definition withAnimation (a : AnimationState) (s : State) : State :=
  {| blobs := blobs s; isTouch := isTouch s; position := position s;
     touch := touch s; animation := a; browser := browser s |}.
Definition withBrowser (b : Browser) (s : State) : State :=
  {| blobs := blobs s; isTouch := isTouch s; position := position s;
     touch := touch s; animation := animation s; browser := b |}.
Definition withBlobs (bs : list Blob) (s : State) : State :=
  {| blobs := bs; isTouch := isTouch s; position := position s; touch := touch s;
     animation := animation s; browser := browser s |}.

(** *** updatePosition *)

Definition updatePosition (p : Point) (s : State) : State :=
  let ps := position s in
  withPosition
    {| mouse := mouse ps;
       target := p;
       velocity := {| x := (x p - x (lastPosition ps)) * velocityMultiplier;
                      y := (y p - y (lastPosition ps)) * velocityMultiplier |};
       lastPosition := {| x := x (target ps); y := y (target ps) |} |} s.

(** [handleMouseMove]; the cursor dot it also moves is styled and never read. *)
Definition handleMouseMove (p : Point) (s : State) : State := updatePosition p s.

(** *** The touch handlers; [touches] is [e.touches]. *)

Definition moveTo (p : Point) (b : Blob) : Blob :=
  {| el := el b; pos := {| x := x p; y := y p |}; radius := radius b |}.

Definition handleTouchStart (touches : list Point) (s : State) : State :=
  match touches with
  | [] => s
  | t :: _ =>
      let br := whenSet (fadeOutTimer (touch s)) clearTimeout (browser s) in
      {| blobs := setBlobOpacity 1 (map (moveTo t) (blobs s));
         isTouch := isTouch s;
         position := {| mouse := {| x := x t; y := y t |};
                        target := {| x := x t; y := y t |};
                        velocity := velocity (position s);
                        lastPosition := lastPosition (position s) |};
         touch := {| isTouching := true;
                     touchHoldTimer := touchHoldTimer (touch s);
                     fadeOutTimer := None;
                     isActive := true |};
         animation := animation s;
         browser := br |}
  end.

Definition handleTouchMove (touches : list Point) (s : State) : State :=
  if negb (isTouching (touch s)) then s
  else
    match touches with
    | [] => s
    | t :: _ =>
        let s1 :=
          if isActive (touch s) then s
          else withBlobs (setBlobOpacity 1 (blobs s))
                 (withTouch {| isTouching := isTouching (touch s);
                               touchHoldTimer := touchHoldTimer (touch s);
                               fadeOutTimer := fadeOutTimer (touch s);
                               isActive := true |} s) in
        updatePosition t s1
    end.

Definition handleTouchEnd (s : State) : State :=
  let '(h, br) := setTimeout FadeOut (browser s) in
  withBrowser br
    (withTouch {| isTouching := false;
                  touchHoldTimer := touchHoldTimer (touch s);
                  fadeOutTimer := Some h;
                  isActive := isActive (touch s) |} s).

(** The callback of the fade-out timer, and [hide]. *)
Definition hide (s : State) : State :=
  withBlobs (setBlobOpacity 0 (blobs s))
    (withTouch {| isTouching := isTouching (touch s);
                  touchHoldTimer := touchHoldTimer (touch s);
                  fadeOutTimer := fadeOutTimer (touch s);
                  isActive := false |} s).

Definition showAt (p : Point) (s : State) : State :=
  withBlobs (setBlobOpacity 1 (blobs s))
    (withTouch {| isTouching := isTouching (touch s);
                  touchHoldTimer := touchHoldTimer (touch s);
                  fadeOutTimer := fadeOutTimer (touch s);
                  isActive := true |}
       (withPosition {| mouse := {| x := x p; y := y p |};
                        target := {| x := x p; y := y p |};
                        velocity := velocity (position s);
                        lastPosition := lastPosition (position s) |} s)).

(** [handleOrientationChange] and the callback it schedules. *)
Definition handleOrientationChange (s : State) : State :=
  withBrowser (snd (setTimeout Recenter (browser s))) s.

Definition recenter (innerWidth innerHeight : Q) (s : State) : State :=
  let c := {| x := innerWidth / 2; y := innerHeight / 2 |} in
  withPosition {| mouse := c; target := c;
                  velocity := velocity (position s);
                  lastPosition := lastPosition (position s) |} s.

(** *** animate *)

(** [Math.min((currentTime - this.lastTime) / 16.67, 2)] *)
Definition deltaTime (currentTime lastTime : Q) : Q :=
  Qmin ((currentTime - lastTime) / frameInterval) maxDelta.

(** [a += (b - a) * k] *)
Definition approach (a b k : Q) : Q := (a + (b - a) * k)%Q.

Section Animate.
(** [Math.sqrt] *)
Variable sqrt : Q -> Q.

(** The body of [this.blobs.forEach((blob, index) => ...)], from [index]
    on, with [tgt] the running [targetX], [targetY]. *)
Fixpoint follow (cfg : Config) (dt : Q) (stretch : bool) (v : Point)
    (index : nat) (tgt : Point) (bs : list Blob) : list Blob :=
  match bs with
  | [] => []
  | b :: rest =>
      let lag := match index with O => lagPrimary cfg | S _ => lagSecondary cfg end in
      let adjustedLag := (lag * dt)%Q in
      let p := {| x := approach (x (pos b)) (x tgt) adjustedLag;
                  y := approach (y (pos b)) (y tgt) adjustedLag |} in
      let rad :=
        if stretch then
          let speed := sqrt (x v ^ 2 + y v ^ 2) in
          let sizeMultiplier := (1 + Qmin (speed * (2 # 1000)) (3 # 10))%Q in
          (radius b * sizeMultiplier)%Q
        else radius b in
      {| el := {| node := node (el b); cx := Some (x p); cy := Some (y p);
                  r := rad; opacity := opacity (el b) |};
         pos := p;
         radius := radius b |}
      :: follow cfg dt stretch v (S index) p rest
  end.

(** One tick; [currentTime] is what [performance.now()] returns. *)
Definition animate (currentTime : Q) (s : State) : State :=
  let cfg := config s in
  let ps := position s in
  let dt := deltaTime currentTime (lastTime (animation s)) in
  let m := {| x := x (mouse ps) + (x (target ps) - x (mouse ps)) * lagPrimary cfg * dt;
              y := y (mouse ps) + (y (target ps) - y (mouse ps)) * lagPrimary cfg * dt |} in
  let bs := follow cfg dt (isActive (touch s) && isTouching (touch s))
              (velocity ps) 0 m (blobs s) in
  let '(h, br) := requestAnimationFrame (browser s) in
  {| blobs := bs;
     isTouch := isTouch s;
     position := {| mouse := m;
                    target := target ps;
                    velocity := {| x := x (velocity ps) * velocityDecay;
                                   y := y (velocity ps) * velocityDecay |};
                    lastPosition := lastPosition ps |};
     touch := touch s;
     animation := {| rafId := Some h; lastTime := currentTime |};
     browser := br |}.

(** *** handleVisibilityChange; [hidden] is [document.hidden], [now] and
    [now'] are the readings of [performance.now()] here and in [animate]. *)
Definition handleVisibilityChange (hidden : bool) (now now' : Q) (s : State)
    : State :=
  if hidden then
    match rafId (animation s) with
    | Some h =>
        withAnimation {| rafId := None; lastTime := lastTime (animation s) |}
          (withBrowser (cancelAnimationFrame h (browser s)) s)
    | None => s
    end
  else
    match rafId (animation s) with
    | Some _ => s
    | None =>
        animate now'
          (withAnimation {| rafId := None; lastTime := now |} s)
    end.

(** *** destroy *)
Definition removeAll (bs : list Blob) (children : list nat) : list nat :=
  filter (fun n => n ∉ map (fun b => node (el b)) bs) children.

Definition destroy (s : State) : State :=
  let b1 := whenSet (rafId (animation s)) cancelAnimationFrame (browser s) in
  let b2 := whenSet (touchHoldTimer (touch s)) clearTimeout b1 in
  let b3 := whenSet (fadeOutTimer (touch s)) clearTimeout b2 in
  {| blobs := [];
     isTouch := isTouch s;
     position := position s;
     touch := touch s;
     animation := animation s;
     browser := {| frames := frames b3;
                   timers := timers b3;
                   nextHandle := nextHandle b3;
                   blobGroup := removeAll (blobs s) (blobGroup b3) |} |}.

(** *** The constructor and [init]: [createBlobs], [bindEvents], the first
    [animate].  [t0] and [t1] are the two readings of [performance.now()]. *)
Definition create (touchDevice : bool) (innerWidth innerHeight t0 t1 : Q) : State :=
  let c := {| x := innerWidth / 2; y := innerHeight / 2 |} in
  let cfg := if touchDevice then mobile else desktop in
  let bs := createBlobs touchDevice cfg in
  animate t1
    {| blobs := bs;
       isTouch := touchDevice;
       position := {| mouse := c; target := c;
                      velocity := {| x := 0; y := 0 |};
                      lastPosition := c |};
       touch := {| isTouching := false; touchHoldTimer := None;
                   fadeOutTimer := None; isActive := negb touchDevice |};
       animation := {| rafId := None; lastTime := t0 |};
       browser := {| frames := ∅; timers := ∅; nextHandle := 1%positive;
                     blobGroup := map (fun b => node (el b)) bs |} |}.

(** *** What the browser delivers to a live cursor *)
Inductive Event : Type :=
| EvMouseMove (p : Point)
| EvTouchStart (touches : list Point)
| EvTouchMove (touches : list Point)
| EvTouchEnd                      (* touchend and touchcancel *)
| EvOrientationChange
| EvVisibilityChange (hidden : bool) (now now' : Q)
| EvFrame (h : positive) (now : Q)
| EvTimeout (h : positive) (innerWidth innerHeight : Q)
| EvShowAt (p : Point)
| EvHide
| EvDestroy.

Definition handle (ev : Event) (s : State) : State :=
  match ev with
  | EvMouseMove p => if isTouch s then s else handleMouseMove p s
  | EvTouchStart touches => handleTouchStart touches s
  | EvTouchMove touches => handleTouchMove touches s
  | EvTouchEnd => handleTouchEnd s
  | EvOrientationChange => handleOrientationChange s
  | EvVisibilityChange hidden now now' =>
      handleVisibilityChange hidden now now' s
  | EvFrame h now =>
      if decide (h ∈ frames (browser s)) then
        animate now (withBrowser (cancelAnimationFrame h (browser s)) s)
      else s
  | EvTimeout h w hh =>
      match timers (browser s) !! h with
      | Some cb =>
          let s1 := withBrowser (clearTimeout h (browser s)) s in
          match cb with
          | FadeOut => hide s1
          | Recenter => recenter w hh s1
          end
      | None => s
      end
  | EvShowAt p => showAt p s
  | EvHide => hide s
  | EvDestroy => destroy s
  end.

Inductive reachable : State -> Prop :=
| reach_create touchDevice w h t0 t1 :
    reachable (create touchDevice w h t0 t1)
| reach_step s ev :
    reachable s -> reachable (handle ev s).

(** [k] frames in a row with nothing in between, at the times [nows]. *)
Fixpoint idle (nows : list Q) (s : State) : State :=
  match nows with
  | [] => s
  | now :: rest => idle rest (animate now s)
  end.
End Animate.

(** [Math.sqrt(vx ** 2 + vy ** 2)]: the length of the velocity, squared. *)
Definition speed2 (v : Point) : Q := (x v ^ 2 + y v ^ 2)%Q.

(** Every pending frame callback is the one [rafId] names. *)
Definition framesTracked (s : State) : Prop :=
  forall h, h ∈ frames (browser s) -> rafId (animation s) = Some h.

(** *** Scenarios *)

(** [Math.sqrt] rounded down to a whole number. *)
Definition sqrtFloor (q : Q) : Q := inject_Z (Z.sqrt (Qfloor q)).

(** A desktop cursor in a 1920 x 1080 window, 16.67 ms after the page
    started; then the mouse visits three points. *)
Definition desktopCursor : State := create sqrtFloor false 1920 1080 0 frameInterval.
Definition p1 : Point := {| x := 100; y := 200 |}.
Definition p2 : Point := {| x := 110; y := 200 |}.
Definition p3 : Point := {| x := 130; y := 200 |}.
Definition threeMoves : State :=
  handle sqrtFloor (EvMouseMove p3)
    (handle sqrtFloor (EvMouseMove p2)
       (handle sqrtFloor (EvMouseMove p1) desktopCursor)).

(** A phone: a finger goes down and up again. *)
Definition phoneCursor : State := create sqrtFloor true 390 844 0 frameInterval.
Definition tapped : State :=
  handle sqrtFloor EvTouchEnd
    (handle sqrtFloor (EvTouchStart [{| x := 40; y := 50 |}]) phoneCursor).

(** Two fingers: both go down, then each lift fires its own touchend. *)
Definition twoLifts : State :=
  handle sqrtFloor EvTouchEnd
    (handle sqrtFloor EvTouchEnd
       (handle sqrtFloor
          (EvTouchStart [{| x := 40; y := 50 |}; {| x := 90; y := 50 |}])
          phoneCursor)).

(** The two lifts are followed by a turn of the phone: the second touchend
    has overwritten the handle of the first fade-out timer, and the timer of
    [handleOrientationChange] was never stored. *)
Definition liftedAndTurned : State := handle sqrtFloor EvOrientationChange twoLifts.

(** One finger goes down at (40, 50) and is dragged to (140, 50). *)
Definition dragged : State :=
  handle sqrtFloor (EvTouchMove [{| x := 140; y := 50 |}])
    (handle sqrtFloor (EvTouchStart [{| x := 40; y := 50 |}]) phoneCursor).

(** The clock readings of [k] frames that follow [t] at the nominal spacing
    of 16.67 ms. *)
Fixpoint nominalTimes (t : Q) (k : nat) : list Q :=
  match k with
  | O => []
  | S k' => (t + frameInterval)%Q :: nominalTimes (t + frameInterval) k'
  end.

(** The smoothing factor [follow] uses for the blob at [index]. *)
Definition lagAt (cfg : Config) (index : nat) : Q :=
  match index with O => lagPrimary cfg | S _ => lagSecondary cfg end.

(** [getPosition], [getBlobPositions], [getIsActive] *)
Definition getPosition (s : State) : Point :=
  {| x := x (mouse (position s)); y := y (mouse (position s)) |}.
Definition getBlobPositions (s : State) : list Point :=
  map (fun b => {| x := x (pos b); y := y (pos b) |}) (blobs s).
Definition getIsActive (s : State) : bool := isActive (touch s).

End BlobCursor.

(** ** js/loader-scene.js *)

Module LoaderScene.

(** The objects of the module-level variables, each with the identity the
    browser or three.js gave it. *)
Record Renderer : Type := mkRenderer {
  rendererId : positive;
  domElement : positive
}.

Record Material : Type := mkMaterial {
  materialId : positive;
  tDiffuse : option positive;   (* uniforms.tDiffuse.value *)
  time : Q                      (* uniforms.time.value *)
}.

Record Mesh : Type := mkMesh { geometry : positive }.

(** The browser and the GPU as the scene sees them: pending animation frame
    callbacks, texture loads in flight, whether [onWindowResize] is bound to
    the window, the children of the container, the three.js objects created
    and not yet disposed, the renderers whose context was force-lost, and
    the next fresh identity. *)
Record Browser : Type := mkBrowser {
  frames : gset positive;
  loads : nat;
  resizeBound : bool;
  children : list positive;
  live : gset positive;
  contextLost : gset positive;
  nextHandle : positive
}.

Record State : Type := mkState {
  container : bool;               (* getElementById found the container *)
  scene : option (list Mesh);
  camera : bool;
  renderer : option Renderer;
  material : option Material;
  mesh : option Mesh;
  animationId : option positive;
  browser : Browser
}.

Definition timeIncrement : Q := 5 # 1000.

(** The module as loaded: every variable [undefined]. *)
Definition loaded (hasContainer : bool) : State :=
  {| container := hasContainer; scene := None; camera := false;
     renderer := None; material := None; mesh := None; animationId := None;
     browser := {| frames := ∅; loads := 0; resizeBound := false; children := [];
                   live := ∅; contextLost := ∅; nextHandle := 1%positive |} |}.

(** *** initLoaderScene *)
Definition initLoaderScene (s : State) : State :=
  if negb (container s) then s
  else
    let b := browser s in
    let rid := nextHandle b in
    let dom := Pos.succ rid in
    {| container := container s;
       scene := Some [];
       camera := true;
       renderer := Some {| rendererId := rid; domElement := dom |};
       material := material s;
       mesh := mesh s;
       animationId := animationId s;
       browser := {| frames := frames b;
                     loads := S (loads b);
                     resizeBound := true;
                     children := children b ++ [dom];
                     live := {[rid]} ∪ live b;
                     contextLost := contextLost b;
                     nextHandle := Pos.succ dom |} |}.

(** *** animate *)
Definition animate (s : State) : Outcome State :=
  let b := browser s in
  let h := nextHandle b in
  let s1 :=
    {| container := container s; scene := scene s; camera := camera s;
       renderer := renderer s;
       material :=
         match material s with
         | Some m => Some {| materialId := materialId m; tDiffuse := tDiffuse m;
                             time := time m + timeIncrement |}
         | None => None
         end;
       mesh := mesh s;
       animationId := Some h;
       browser := {| frames := {[h]} ∪ frames b; loads := loads b;
                     resizeBound := resizeBound b; children := children b;
                     live := live b; contextLost := contextLost b;
                     nextHandle := Pos.succ h |} |} in
  match renderer s with
  | Some _ => Done s1
  | None => Raised TypeError s1
  end.

(** *** The [onLoad] callback of the texture loader *)
Definition onLoad (s : State) : Outcome State :=
  let b := browser s in
  let tex := nextHandle b in
  let mat := Pos.succ tex in
  let geo := Pos.succ mat in
  let s1 :=
    {| container := container s; scene := scene s; camera := camera s;
       renderer := renderer s;
       material := Some {| materialId := mat; tDiffuse := Some tex; time := 0 |};
       mesh := Some {| geometry := geo |};
       animationId := animationId s;
       browser := {| frames := frames b; loads := pred (loads b);
                     resizeBound := resizeBound b; children := children b;
                     live := {[tex; mat; geo]} ∪ live b;
                     contextLost := contextLost b;
                     nextHandle := Pos.succ geo |} |} in
  match scene s with
  | None => Raised TypeError s1
  | Some ms =>
      animate
        {| container := container s1; scene := Some (ms ++ [{| geometry := geo |}]);
           camera := camera s1; renderer := renderer s1; material := material s1;
           mesh := mesh s1; animationId := animationId s1; browser := browser s1 |}
  end.

(** *** onWindowResize: [renderer.setSize] changes none of the fields here. *)
Definition onWindowResize (s : State) : State := s.

(** *** disposeLoaderScene *)

Definition release (h : option positive) (g : gset positive) : gset positive :=
  match h with
  | Some i => g ∖ {[i]}
  | None => g
  end.

Definition disposeLoaderScene (s : State) : Outcome State :=
  let b := browser s in
  (* if (animationId) cancelAnimationFrame(animationId) *)
  let fr := release (animationId s) (frames b) in
  (* if (container && renderer && renderer.domElement) removeChild *)
  let detach : option (list positive) :=
    match container s, renderer s with
    | true, Some rd =>
        if decide (domElement rd ∈ children b)
        then Some (filter (fun n => n ≠ domElement rd) (children b))
        else None
    | _, _ => Some (children b)
    end in
  match detach with
  | None =>
      Raised NotFoundError
        {| container := container s; scene := scene s; camera := camera s;
           renderer := renderer s; material := material s; mesh := mesh s;
           animationId := animationId s;
           browser := {| frames := fr; loads := loads b; resizeBound := false;
                         children := children b; live := live b;
                         contextLost := contextLost b;
                         nextHandle := nextHandle b |} |}
  | Some kids =>
      let l1 :=
        match material s with
        | Some m => release (tDiffuse m) (live b ∖ {[materialId m]})
        | None => live b
        end in
      let l2 := release (geometry <$> mesh s) l1 in
      let l3 := release (rendererId <$> renderer s) l2 in
      let lost :=
        match renderer s with
        | Some rd => {[rendererId rd]} ∪ contextLost b
        | None => contextLost b
        end in
      Done {| container := container s; scene := None; camera := false;
              renderer := None; material := None; mesh := None;
              animationId := animationId s;
              browser := {| frames := fr; loads := loads b; resizeBound := false;
                            children := kids; live := l3; contextLost := lost;
                            nextHandle := nextHandle b |} |}
  end.

(** *** What happens to the scene once [main.js] has called
    [initLoaderScene] *)
Inductive Event : Type :=
| EvLoaded                 (* the texture arrived *)
| EvFrame (h : positive)   (* the browser runs the callback with handle h *)
| EvResize
| EvDispose.

Definition withoutFrame (h : positive) (s : State) : State :=
  let b := browser s in
  {| container := container s; scene := scene s; camera := camera s;
     renderer := renderer s; material := material s; mesh := mesh s;
     animationId := animationId s;
     browser := {| frames := frames b ∖ {[h]}; loads := loads b;
                   resizeBound := resizeBound b; children := children b;
                   live := live b; contextLost := contextLost b;
                   nextHandle := nextHandle b |} |}.

Definition handle (ev : Event) (s : State) : Outcome State :=
  match ev with
  | EvLoaded =>
      match loads (browser s) with
      | O => Done s
      | S _ => onLoad s
      end
  | EvFrame h =>
      if decide (h ∈ frames (browser s)) then animate (withoutFrame h s)
      else Done s
  | EvResize =>
      if resizeBound (browser s) then Done (onWindowResize s) else Done s
  | EvDispose => disposeLoaderScene s
  end.

Inductive reachable : State -> Prop :=
| reach_init hasContainer :
    reachable (initLoaderScene (loaded hasContainer))
| reach_step s ev :
    reachable s -> reachable (stateOf (handle ev s)).

(** The identities of the three.js objects the module variables hold. *)
Definition held (s : State) : gset positive :=
  match renderer s with Some rd => {[rendererId rd]} | None => ∅ end
  ∪ match material s with
    | Some m => {[materialId m]}
                ∪ match tDiffuse m with Some t => {[t]} | None => ∅ end
    | None => ∅
    end
  ∪ match mesh s with Some ms => {[geometry ms]} | None => ∅ end.

(** What holds of the scene from [initLoaderScene] on: a pending frame is
    the one [animationId] names; while the texture is still loading no frame
    is pending and neither material nor mesh exists; every live three.js
    object is held by a module variable; the canvas of the renderer is a
    child of the container. *)
Record Inv (s : State) : Prop := mkInv {
  inv_frames : forall h, h ∈ frames (browser s) -> animationId s = Some h;
  inv_loads : loads (browser s) <= 1;
  inv_loading : loads (browser s) <> 0 ->
                frames (browser s) = ∅ /\ material s = None /\ mesh s = None;
  inv_live : live (browser s) ⊆ held s;
  inv_attached : forall rd, renderer s = Some rd ->
                            domElement rd ∈ children (browser s)
}.

(** *** Scenarios *)

(** The loader of [main.js]: the texture arrives, two frames run. *)
Definition running : State :=
  stateOf (handle (EvFrame 7)
    (stateOf (handle (EvFrame 6)
       (stateOf (handle EvLoaded (initLoaderScene (loaded true))))))).

(** *** The fragment shader of the loader: the vignette,
    [1.0 - dot(vUv - 0.5, vUv - 0.5) * 0.5], and a channel of
    [gl_FragColor = vec4(r, g, b, 1.0) * vignette]. *)
Definition vignette (vUv : Q * Q) : Q :=
  let dx := (fst vUv - (1 # 2))%Q in
  let dy := (snd vUv - (1 # 2))%Q in
  (1 - (dx * dx + dy * dy) * (1 # 2))%Q.

Definition shaded (channel : Q) (vUv : Q * Q) : Q := (channel * vignette vUv)%Q.

(** The scene after the events [evs], whether a handler threw or not. *)
Fixpoint play (evs : list Event) (s : State) : State :=
  match evs with
  | [] => s
  | ev :: rest => play rest (stateOf (handle ev s))
  end.

(** The loader while the texture is still on its way. *)
Definition loading : State := initLoaderScene (loaded true).

End LoaderScene.

(** * Properties *)

(** ** The transition controller of the background *)

Module BackgroundFacts.
Import Background Shaders.

Lemma advance_spec (p : Q) :
  (0 <= p)%Q -> (p <= 1)%Q ->
  (0 <= fst (advance p))%Q /\ (fst (advance p) <= 1)%Q /\ (p <= fst (advance p))%Q.
Proof.
  intros Hlo Hhi. unfold advance, transitionSpeed.
  destruct (Qle_bool 1 (p + (1 # 100))) eqn:E; simpl.
  - repeat split; [lra | lra | exact Hhi].
  - assert (Hlt : ~ (1 <= p + (1 # 100))%Q).
    { intros H. apply Qle_bool_iff in H. congruence. }
    repeat split; lra.
Qed.

Lemma advance_done (p : Q) :
  (1 <= p + transitionSpeed)%Q -> advance p = (1%Q, false).
Proof.
  intros H. unfold advance. apply Qle_bool_iff in H. now rewrite H.
Qed.

Lemma loadTextures_resolves evD evO evG s0 :
  loadTextures evD evO evG s0
  = Resolved (bindTextures
                (match evD with OnLoad t => Some t | OnError => None end,
                 match evO with OnLoad t => Some t | OnError => None end,
                 match evG with OnLoad t => Some t | OnError => None end) s0).
Proof. destruct evD, evO, evG; reflexivity. Qed.

Lemma inv_setup evD evO evG w h s :
  loadTextures evD evO evG constructed = Resolved s -> Inv (setupMaterial w h s).
Proof.
  rewrite loadTextures_resolves. intros [= <-].
  split; simpl; try (eexists; reflexivity); try reflexivity; lra.
Qed.

Lemma inv_setTarget name s :
  Inv s -> exists s', setTarget name s = Done s' /\ Inv s'.
Proof.
  intros [[u Hu] Hmix H1 H2 Hlo Hhi]. unfold setTarget.
  destruct (textures s !! name) as [newTex|]; [|eexists; split; [reflexivity|]].
  - destruct (decide (targetTexture s = Some newTex)).
    + eexists; split; [reflexivity|]. split; eauto.
    + rewrite Hu. eexists; split; [reflexivity|].
      split; simpl; eauto; lra.
  - split; eauto.
Qed.

Lemma inv_animate s :
  Inv s -> exists s', animate s = Done s' /\ Inv s'.
Proof.
  intros [[u Hu] Hmix H1 H2 Hlo Hhi]. unfold animate. rewrite Hu in *.
  simpl in *. destruct (isTransitioning s).
  - destruct (advance_spec _ Hlo Hhi) as (A & B & _).
    destruct (advance (transitionProgress s)) as [p flag]. simpl in *.
    eexists; split; [reflexivity|]. split; simpl; eauto.
  - eexists; split; [reflexivity|]. split; simpl; eauto.
Qed.

Lemma inv_handleResize w h s : Inv s -> Inv (handleResize w h s).
Proof.
  intros [[u Hu] Hmix H1 H2 Hlo Hhi]. unfold handleResize. rewrite Hu in *.
  split; simpl in *; eauto.
Qed.

Lemma inv_handle ev s :
  Inv s -> exists s', handle ev s = Done s' /\ Inv s'.
Proof.
  destruct ev; simpl; intros H.
  - now apply inv_setTarget.
  - now apply inv_animate.
  - eexists; split; [reflexivity|]. now apply inv_handleResize.
Qed.

Lemma reachable_inv s : reachable s -> Inv s.
Proof.
  induction 1 as [evD evO evG w h s Hs | s ev _ IH].
  - eapply inv_setup; eauto.
  - destruct (inv_handle ev s IH) as (s' & -> & Hs'). exact Hs'.
Qed.

(** No event handler of a set-up instance throws. *)
Lemma reachable_no_throw s ev :
  reachable s -> exists s', handle ev s = Done s'.
Proof.
  intros H. destruct (inv_handle ev s (reachable_inv s H)) as (s' & E & _). eauto.
Qed.

Lemma reachable_run evs s : reachable s -> reachable (stateOf (run evs s)).
Proof.
  revert s. induction evs as [|ev rest IH]; intros s H; simpl; [exact H|].
  pose proof (reach_step s ev H) as H1.
  destruct (handle ev s) as [s1|e s1]; simpl in *; [now apply IH | exact H1].
Qed.

Lemma reachable_settled : reachable settled.
Proof.
  apply (reach_setup (OnLoad (TexImage url_default)) (OnLoad (TexImage url_orange))
           (OnLoad (TexImage url_graduation))).
  reflexivity.
Qed.

Lemma reachable_towardsOrange n : reachable (towardsOrange n).
Proof. apply reachable_run, reachable_settled. Qed.

(** A settled controller stays settled under further frames. *)
Lemma idle_frames n s u :
  material s = Some u -> isTransitioning s = false ->
  exists s' u',
    run (replicate n EvFrame) s = Done s' /\ material s' = Some u' /\
    transitionProgress s' = transitionProgress s /\ uMix u' = uMix u /\
    isTransitioning s' = false /\
    currentSourceTexture s' = currentSourceTexture s /\
    targetTexture s' = targetTexture s /\
    uTex1 u' = uTex1 u /\ uTex2 u' = uTex2 u.
Proof.
  revert s u. induction n as [|n IH]; intros s u Hu Hidle; simpl.
  - exists s, u. repeat split; assumption.
  - unfold animate. rewrite Hu, Hidle. simpl.
    match goal with
    | |- context [run _ ?st] =>
        destruct (IH st _ eq_refl eq_refl)
          as (s' & u' & E & Hm & Hp & Hx & Hi & Hs & Ht & H1 & H2)
    end.
    exists s', u'. rewrite E. simpl in *. repeat split; assumption.
Qed.

(** *** C4 *)

(** C4: when the texture registered under [X] is already the target,
    [setTarget X] returns at its guard and changes nothing: progress, source,
    target, the transitioning flag and every uniform are the ones before. *)
Theorem setTarget_same_target_noop (s : State) (X : string) (t : Texture) :
  textures s !! X = Some t ->
  targetTexture s = Some t ->
  setTarget X s = Done s.
Proof.
  intros HX Ht. unfold setTarget. rewrite HX.
  destruct (decide (targetTexture s = Some t)) as [_|Hne]; [reflexivity|].
  contradiction.
Qed.

Lemma setTarget_same_target_noop_witness :
  targetTexture arrived = Some (TexImage url_orange) /\
  isTransitioning arrived = false /\
  setTarget "orange" arrived = Done arrived.
Proof.
  split; [vm_compute; reflexivity|]. split; [vm_compute; reflexivity|].
  apply (setTarget_same_target_noop arrived "orange" (TexImage url_orange));
    vm_compute; reflexivity.
Defined.

(** *** C10 *)

(** C10: in every state from [setupMaterial] on, whatever calls of
    [setTarget], frames and resizes followed, the material exists and its
    [uMix] uniform is the value of [transitionProgress]. *)
Theorem uMix_is_transitionProgress (s : State) :
  reachable s ->
  exists u, material s = Some u /\ uMix u = transitionProgress s.
Proof.
  intros H. destruct (reachable_inv s H) as [[u Hu] Hmix _ _ _ _].
  exists u. split; [exact Hu|]. rewrite Hu in Hmix. now injection Hmix.
Qed.

Lemma uMix_is_transitionProgress_witness :
  exists u, material midFlight = Some u /\ uMix u = transitionProgress midFlight.
Proof.
  apply (uMix_is_transitionProgress midFlight), reachable_towardsOrange.
Defined.

(** *** C3 *)

(** On doubles too: [setTarget] always restarts at exactly 0, so the values
    the progress takes are the ones below; they rise within [0, 1], the
    hundredth frame is the one that completes, and the progress then stays 1. *)
Lemma double_progress_rises_within_unit :
  risesWithinUnit (progressTrace 200 0%float true) = true /\
  nth 99 (progressTrace 200 0%float true) 0%float
  = 0x1.fae147ae147b4p-1%float (* 0.99000000000000066 *) /\
  nth 100 (progressTrace 200 0%float true) 0%float = 1%float /\
  nth 200 (progressTrace 200 0%float true) 0%float = 1%float.
Proof. repeat split; vm_compute; reflexivity. Qed.

(** C3: in every reachable state the progress lies in [0, 1], and the next
    frame returns normally with a progress that is not smaller. *)
Theorem progress_bounded_and_monotone (s : State) :
  reachable s ->
  (0 <= transitionProgress s)%Q /\ (transitionProgress s <= 1)%Q /\
  exists s', animate s = Done s' /\
             (transitionProgress s <= transitionProgress s')%Q.
Proof.
  intros H. destruct (reachable_inv s H) as [[u Hu] _ _ _ Hlo Hhi].
  split; [exact Hlo|]. split; [exact Hhi|].
  unfold animate. rewrite Hu. destruct (isTransitioning s).
  - destruct (advance_spec _ Hlo Hhi) as (_ & _ & Hmono).
    destruct (advance (transitionProgress s)) as [p flag].
    eexists; split; [reflexivity|]. exact Hmono.
  - eexists; split; [reflexivity|]. simpl. lra.
Qed.

Lemma progress_bounded_and_monotone_witness :
  (0 <= transitionProgress midFlight)%Q /\
  (transitionProgress midFlight <= 1)%Q /\
  exists s', animate midFlight = Done s' /\
             (transitionProgress midFlight <= transitionProgress s')%Q.
Proof.
  apply (progress_bounded_and_monotone midFlight), reachable_towardsOrange.
Defined.

(** *** C2 *)

(** The tick that completes a transition, on the scenario: one frame before
    the end the progress is 99/100; the frame clamps it to 1 and leaves it
    there, and the source is still the texture the transition came from. *)
Lemma completion_keeps_progress_and_source :
  isTransitioning lastLeg = true /\
  (1 <= transitionProgress lastLeg + transitionSpeed)%Q /\
  exists s',
    animate lastLeg = Done s' /\
    ~ (transitionProgress s' == 0)%Q /\
    currentSourceTexture s' <> targetTexture lastLeg.
Proof.
  split; [vm_compute; reflexivity|].
  split; [vm_compute; discriminate|].
  eexists. split; [vm_compute; reflexivity|].
  split; [vm_compute; discriminate | vm_compute; discriminate].
Qed.

Section Completion.
Variable texture2D : option Texture -> Q * Q -> Q.
Variable distorted : Q -> Q * Q -> Q * Q -> Q * Q.
Variable vignette : Q * Q -> Q.

(** C2, amended: the tick on which the progress reaches or passes 1 sets
    the progress and [uMix] to exactly 1 and clears [isTransitioning];
    source, target and both samplers are untouched, so the shader shows
    the target alone; and every later frame leaves all of this as it is
    (the progress stays 1) until [setTarget] is called. *)
Theorem completion_clamps_and_idles (s : State) (n : nat) (vUv : Q * Q) :
  reachable s ->
  isTransitioning s = true ->
  (1 <= transitionProgress s + transitionSpeed)%Q ->
  exists s' u u',
    material s = Some u /\
    animate s = Done s' /\ material s' = Some u' /\
    transitionProgress s' = 1%Q /\ uMix u' = 1%Q /\
    isTransitioning s' = false /\
    currentSourceTexture s' = currentSourceTexture s /\
    targetTexture s' = targetTexture s /\
    uTex1 u' = uTex1 u /\ uTex2 u' = uTex2 u /\
    (fragColor texture2D distorted vignette u' vUv
     == alone texture2D distorted vignette (targetTexture s) u' vUv)%Q /\
    exists s'' u'',
      run (replicate n EvFrame) s' = Done s'' /\ material s'' = Some u'' /\
      transitionProgress s'' = 1%Q /\ uMix u'' = 1%Q /\
      isTransitioning s'' = false /\
      currentSourceTexture s'' = currentSourceTexture s /\
      targetTexture s'' = targetTexture s.
Proof.
  intros Hr Htr Hend.
  destruct (reachable_inv s Hr) as [[u Hu] _ _ H2 _ _].
  rewrite Hu in H2. simpl in H2.
  unfold animate. rewrite Hu, Htr, (advance_done _ Hend).
  eexists _, u, _. split; [reflexivity|]. split; [reflexivity|].
  split; [reflexivity|]. simpl.
  repeat (split; [reflexivity|]).
  split.
  - unfold fragColor, alone, mix. simpl. rewrite H2. ring.
  - match goal with
    | |- context [run _ ?st] =>
        destruct (idle_frames n st _ eq_refl eq_refl)
          as (s'' & u'' & E & Hm & Hp & Hx & Hi & Hs & Ht & _ & _)
    end.
    exists s'', u''. simpl in *. repeat split; assumption.
Qed.
End Completion.

Lemma completion_clamps_and_idles_witness :
  exists s' u u',
    material lastLeg = Some u /\
    animate lastLeg = Done s' /\ material s' = Some u' /\
    transitionProgress s' = 1%Q /\ uMix u' = 1%Q /\
    isTransitioning s' = false /\
    currentSourceTexture s' = currentSourceTexture lastLeg /\
    targetTexture s' = targetTexture lastLeg /\
    uTex1 u' = uTex1 u /\ uTex2 u' = uTex2 u /\
    (fragColor flat undistorted noVignette u' centre
     == alone flat undistorted noVignette (targetTexture lastLeg) u' centre)%Q /\
    exists s'' u'',
      run (replicate 3 EvFrame) s' = Done s'' /\ material s'' = Some u'' /\
      transitionProgress s'' = 1%Q /\ uMix u'' = 1%Q /\
      isTransitioning s'' = false /\
      currentSourceTexture s'' = currentSourceTexture lastLeg /\
      targetTexture s'' = targetTexture lastLeg.
Proof.
  apply (completion_clamps_and_idles flat undistorted noVignette lastLeg 3 centre).
  - apply reachable_towardsOrange.
  - vm_compute; reflexivity.
  - vm_compute; discriminate.
Defined.

(** *** C1 *)

(** A retarget in mid-flight, on the scenario: half way from the default
    image to the orange one, the pointer moves to the second card.  On the
    flat test pattern the screen shows the grey level 1/2 before the call
    and 1 after it: the new source is the orange texture, not the blend. *)
Lemma retarget_jumps_to_former_target :
  isTransitioning midFlight = true /\
  (0 < transitionProgress midFlight)%Q /\ (transitionProgress midFlight < 1)%Q /\
  textures midFlight !! "graduation" <> targetTexture midFlight /\
  exists u s' u',
    material midFlight = Some u /\
    setTarget "graduation" midFlight = Done s' /\
    material s' = Some u' /\
    currentSourceTexture s' = Some (TexImage url_orange) /\
    (fragColor flat undistorted noVignette u centre == 1 # 2)%Q /\
    (fragColor flat undistorted noVignette u' centre == 1)%Q /\
    ~ (fragColor flat undistorted noVignette u' centre
       == fragColor flat undistorted noVignette u centre)%Q.
Proof.
  split; [vm_compute; reflexivity|].
  split; [vm_compute; reflexivity|].
  split; [vm_compute; reflexivity|].
  split; [vm_compute; discriminate|].
  eexists _, _, _.
  split; [vm_compute; reflexivity|].
  split; [vm_compute; reflexivity|].
  split; [vm_compute; reflexivity|].
  split; [vm_compute; reflexivity|].
  split; [vm_compute; reflexivity|].
  split; [vm_compute; reflexivity|].
  vm_compute; discriminate.
Qed.

Section Retarget.
Variable texture2D : option Texture -> Q * Q -> Q.
Variable distorted : Q -> Q * Q -> Q * Q -> Q * Q.
Variable vignette : Q * Q -> Q.

(** C1, amended: during a transition, [setTarget] with a texture other
    than the current target makes the former target (not the blend on
    screen) the new source, sets the progress and [uMix] to 0 and stays
    transitioning.  The screen then shows the former target alone; against
    the frame before, each fragment moves by
    (1 - progress) * (target - source) * vignette, which is zero only where
    the two textures agree.  The progress is in [0, 1] before and after. *)
Theorem retarget_restarts_from_former_target
    (s : State) (textureName : string) (newTex : Texture) (vUv : Q * Q) :
  reachable s ->
  isTransitioning s = true ->
  (0 < transitionProgress s)%Q -> (transitionProgress s < 1)%Q ->
  textures s !! textureName = Some newTex ->
  targetTexture s <> Some newTex ->
  exists s' u u',
    material s = Some u /\
    setTarget textureName s = Done s' /\ material s' = Some u' /\
    currentSourceTexture s' = targetTexture s /\
    targetTexture s' = Some newTex /\
    uTex1 u' = targetTexture s /\ uTex2 u' = Some newTex /\
    transitionProgress s' = 0%Q /\ uMix u' = 0%Q /\
    isTransitioning s' = true /\
    (0 <= transitionProgress s' <= 1)%Q /\
    (fragColor texture2D distorted vignette u' vUv
     == alone texture2D distorted vignette (targetTexture s) u vUv)%Q /\
    (let coord := distorted (uTime u) (uResolution u) vUv in
     fragColor texture2D distorted vignette u' vUv
     - fragColor texture2D distorted vignette u vUv
     == (1 - transitionProgress s)
        * (texture2D (targetTexture s) coord
           - texture2D (currentSourceTexture s) coord)
        * vignette vUv)%Q.
Proof.
  intros Hr Htr Hlo Hhi Hname Hnew.
  destruct (reachable_inv s Hr) as [[u Hu] Hmix H1 H2 _ _].
  rewrite Hu in Hmix, H1, H2. simpl in Hmix, H1, H2.
  injection Hmix as Hmix.
  unfold setTarget. rewrite Hname.
  destruct (decide (targetTexture s = Some newTex)) as [E|_]; [contradiction|].
  rewrite Hu. eexists _, u, _.
  split; [reflexivity|]. split; [reflexivity|]. split; [reflexivity|]. simpl.
  repeat (split; [reflexivity|]).
  split; [split; lra|].
  unfold fragColor, alone, mix. simpl. rewrite <- H1, <- H2, <- Hmix.
  split; ring.
Qed.
End Retarget.

Lemma retarget_restarts_from_former_target_witness :
  exists s' u u',
    material midFlight = Some u /\
    setTarget "graduation" midFlight = Done s' /\ material s' = Some u' /\
    currentSourceTexture s' = targetTexture midFlight /\
    targetTexture s' = Some (TexImage url_graduation) /\
    uTex1 u' = targetTexture midFlight /\
    uTex2 u' = Some (TexImage url_graduation) /\
    transitionProgress s' = 0%Q /\ uMix u' = 0%Q /\
    isTransitioning s' = true /\
    (0 <= transitionProgress s' <= 1)%Q /\
    (fragColor flat undistorted noVignette u' centre
     == alone flat undistorted noVignette (targetTexture midFlight) u centre)%Q /\
    (let coord := undistorted (uTime u) (uResolution u) centre in
     fragColor flat undistorted noVignette u' centre
     - fragColor flat undistorted noVignette u centre
     == (1 - transitionProgress midFlight)
        * (flat (targetTexture midFlight) coord
           - flat (currentSourceTexture midFlight) coord)
        * noVignette centre)%Q.
Proof.
  apply (retarget_restarts_from_former_target flat undistorted noVignette
           midFlight "graduation" (TexImage url_graduation) centre).
  - apply reachable_towardsOrange.
  - vm_compute; reflexivity.
  - vm_compute; reflexivity.
  - vm_compute; reflexivity.
  - vm_compute; reflexivity.
  - vm_compute; discriminate.
Defined.

(** *** C8 *)

(** C8: whatever the loader reports for the three images, [loadTextures]
    resolves, and afterwards every slot holds a texture: a failed default is
    the blank texture, a failed secondary texture is the default slot's
    texture; target, source and (after [setupMaterial]) both samplers hold
    the default slot's texture; [loadTex] never rejects, and [init] returns
    without throwing. *)
Theorem loadTextures_fills_every_slot
    (evDefault evOrange evGrad : LoadEvent) (s0 : State) (w h : Q) :
  let d := match evDefault with OnLoad t => t | OnError => TexBlank end in
  (forall ev, exists r, loadTex ev = Resolved r) /\
  (exists s,
     loadTextures evDefault evOrange evGrad s0 = Resolved s /\
     textures s !! "default" = Some d /\
     textures s !! "orange"
       = Some (match evOrange with OnLoad t => t | OnError => d end) /\
     textures s !! "graduation"
       = Some (match evGrad with OnLoad t => t | OnError => d end) /\
     targetTexture s = Some d /\
     currentSourceTexture s = Some d /\
     (uTex1 <$> material (setupMaterial w h s)) = Some (Some d) /\
     (uTex2 <$> material (setupMaterial w h s)) = Some (Some d)) /\
  (exists s', init evDefault evOrange evGrad w h = Done s').
Proof.
  intros d. split; [intros [t|]; eexists; reflexivity|]. split.
  - rewrite loadTextures_resolves. eexists. split; [reflexivity|].
    subst d. destruct evDefault, evOrange, evGrad; simpl;
      repeat split; by simplify_map_eq.
  - unfold init. rewrite loadTextures_resolves. simpl.
    unfold animate. simpl. eexists; reflexivity.
Qed.

(** *** Further invariants of the background *)

(** The clock uniform is the clock, the texture registry is the one
    [loadTextures] left, and an idle controller either has never moved (both
    samplers hold the same texture) or has completed (progress 1). *)
Lemma reachable_uniforms s :
  reachable s ->
  exists u,
    material s = Some u /\
    uTime u = time s /\
    uTex1 u = currentSourceTexture s /\
    uTex2 u = targetTexture s /\
    (isTransitioning s = false ->
     transitionProgress s = 1%Q \/ currentSourceTexture s = targetTexture s).
Proof.
  induction 1 as [evD evO evG w h s Hs | s ev Hr (u & Hu & Ht & H1 & H2 & Hidle)].
  - rewrite loadTextures_resolves in Hs. injection Hs as <-.
    eexists. split; [reflexivity|]. simpl. repeat split. intros _. now right.
  - destruct ev as [name| |w h]; simpl.
    + unfold setTarget. destruct (textures s !! name) as [newTex|];
        [|exists u; repeat split; assumption].
      destruct (decide (targetTexture s = Some newTex));
        [exists u; repeat split; assumption|].
      rewrite Hu. simpl. eexists. split; [reflexivity|]. simpl.
      repeat split; try assumption. discriminate.
    + unfold animate. rewrite Hu. destruct (isTransitioning s) eqn:Etr.
      * unfold advance.
        destruct (Qle_bool 1 (transitionProgress s + transitionSpeed)); simpl;
          (eexists; split; [reflexivity|]; simpl; repeat split; try assumption);
          [intros _; now left | discriminate].
      * simpl. eexists. split; [reflexivity|]. simpl. repeat split; assumption.
    + unfold handleResize. rewrite Hu. eexists. split; [reflexivity|]. simpl.
      repeat split; assumption.
Qed.

Lemma of_nat_succ_Q (n : nat) :
  (inject_Z (Z.of_nat (S n)) == inject_Z (Z.of_nat n) + 1)%Q.
Proof. rewrite Nat2Z.inj_succ. unfold Z.succ. now rewrite inject_Z_plus. Qed.

(** [n] frames into a transition that has run [k] frames, while
    [k + n] stays below 100. *)
Lemma frames_in_flight n k s u :
  material s = Some u -> isTransitioning s = true ->
  (transitionProgress s == inject_Z (Z.of_nat k) * transitionSpeed)%Q ->
  k + n < 100 ->
  exists s' u',
    run (replicate n EvFrame) s = Done s' /\ material s' = Some u' /\
    isTransitioning s' = true /\
    (transitionProgress s' == inject_Z (Z.of_nat (k + n)) * transitionSpeed)%Q /\
    currentSourceTexture s' = currentSourceTexture s /\
    targetTexture s' = targetTexture s.
Proof.
  revert k s u. induction n as [|n IH]; intros k s u Hu Htr Hp Hlt.
  - exists s, u. rewrite Nat.add_0_r. simpl. repeat split; assumption.
  - simpl. unfold animate. rewrite Hu, Htr. unfold advance.
    assert (Hk : (inject_Z (Z.of_nat k) <= 98)%Q).
    { change 98%Q with (inject_Z 98). rewrite <- Zle_Qle. lia. }
    destruct (Qle_bool 1 (transitionProgress s + transitionSpeed)) eqn:E.
    { apply Qle_bool_iff in E. unfold transitionSpeed in *. lra. }
    simpl.
    match goal with
    | |- context [run _ ?st] =>
        destruct (IH (S k) st _ eq_refl eq_refl) as (s' & u' & R & Hm & Ht & Hq & Hs & Hg)
    end.
    + simpl. rewrite Hp, of_nat_succ_Q. ring.
    + lia.
    + exists s', u'. rewrite R. replace (k + S n) with (S k + n) by lia.
      simpl in *. repeat split; assumption.
Qed.

Lemma run_app evs1 evs2 s :
  run (evs1 ++ evs2) s = andThen (run evs1 s) (run evs2).
Proof.
  revert s. induction evs1 as [|ev rest IH]; intros s; simpl; [reflexivity|].
  destruct (handle ev s) as [s1|e s1]; simpl; [apply IH | reflexivity].
Qed.

Lemma setTarget_new s u name t :
  material s = Some u -> textures s !! name = Some t -> targetTexture s <> Some t ->
  setTarget name s
  = Done {| textures := textures s;
            targetTexture := Some t;
            currentSourceTexture := targetTexture s;
            transitionProgress := 0;
            isTransitioning := true;
            time := time s;
            material := Some {| uTex1 := targetTexture s; uTex2 := Some t;
                                uMix := 0; uTime := uTime u;
                                uResolution := uResolution u |} |}.
Proof.
  intros Hu Hn Hne. unfold setTarget. rewrite Hn.
  destruct (decide (targetTexture s = Some t)); [contradiction|]. now rewrite Hu.
Qed.

(** From the hundredth frame on a transition has settled. *)
Lemma transition_settles (s : State) (name : string) (t : Texture) (n : nat) :
  reachable s ->
  textures s !! name = Some t ->
  targetTexture s <> Some t ->
  100 <= n ->
  exists s',
    run (EvSetTarget name :: replicate n EvFrame) s = Done s' /\
    targetTexture s' = Some t /\
    currentSourceTexture s' = targetTexture s /\
    isTransitioning s' = false /\ transitionProgress s' = 1%Q.
Proof.
  intros Hr Hn Hne Hge. destruct (reachable_inv s Hr) as [[u Hu] _ _ _ _ _].
  cbn [run handle]. rewrite (setTarget_new s u name t Hu Hn Hne). cbn [andThen].
  set (s1 := {| textures := textures s; targetTexture := Some t |}).
  replace n with (99 + (1 + (n - 100))) by lia.
  rewrite replicate_add, run_app.
  destruct (frames_in_flight 99 0 s1 _ eq_refl eq_refl)
    as (s2 & u2 & R & Hm & Htr & Hp & Hs & Hg); [simpl; ring | lia |].
  rewrite R. cbn [andThen]. rewrite replicate_add. cbn [replicate app run handle].
  unfold animate at 1. rewrite Hm, Htr.
  rewrite advance_done by (rewrite Hp; vm_compute; discriminate).
  cbn [andThen].
  match goal with
  | |- context [run _ ?st] =>
      destruct (idle_frames (n - 100) st _ eq_refl eq_refl)
        as (s3 & u3 & R3 & _ & Hp3 & _ & Hi3 & Hs3 & Ht3 & _)
  end.
  exists s3. rewrite R3. cbn [transitionProgress isTransitioning
    currentSourceTexture targetTexture] in *.
  split; [reflexivity|]. split; [rewrite Ht3; exact Hg|].
  split; [rewrite Hs3; exact Hs|]. split; assumption.
Qed.

(** X1: a transition lasts exactly 100 frames.  After [setTarget] with a new
    texture, [n] frames leave the progress at n/100 while n < 100; from the
    hundredth frame on the controller is idle at progress 1.  Source and
    target do not move meanwhile. *)
Theorem transition_lasts_100_frames (s : State) (name : string) (t : Texture) (n : nat) :
  reachable s ->
  textures s !! name = Some t ->
  targetTexture s <> Some t ->
  exists s',
    run (EvSetTarget name :: replicate n EvFrame) s = Done s' /\
    targetTexture s' = Some t /\
    currentSourceTexture s' = targetTexture s /\
    (n < 100 ->
     isTransitioning s' = true /\
     (transitionProgress s' == inject_Z (Z.of_nat n) * transitionSpeed)%Q) /\
    (100 <= n -> isTransitioning s' = false /\ transitionProgress s' = 1%Q).
Proof.
  intros Hr Hn Hne.
  destruct (le_lt_dec 100 n) as [Hge|Hlt].
  - destruct (transition_settles s name t n Hr Hn Hne Hge)
      as (s' & R & Ht & Hs & Hi & Hp).
    exists s'. split; [exact R|]. split; [exact Ht|]. split; [exact Hs|].
    split; [lia|]. intros _. split; assumption.
  - destruct (reachable_inv s Hr) as [[u Hu] _ _ _ _ _].
    cbn [run handle]. rewrite (setTarget_new s u name t Hu Hn Hne). cbn [andThen].
    set (s1 := {| textures := textures s; targetTexture := Some t |}).
    destruct (frames_in_flight n 0 s1 _ eq_refl eq_refl)
      as (s2 & u2 & R & Hm & Htr & Hp & Hs & Hg); [simpl; ring | lia |].
    exists s2. rewrite R. cbn [andThen]. rewrite Nat.add_0_l in Hp.
    split; [reflexivity|]. split; [exact Hg|]. split; [exact Hs|].
    split; [intros _; split; assumption | lia].
Qed.

Lemma transition_lasts_100_frames_witness :
  exists s',
    run (EvSetTarget "graduation" :: replicate 100 EvFrame) arrived = Done s' /\
    targetTexture s' = Some (TexImage url_graduation) /\
    isTransitioning s' = false /\ transitionProgress s' = 1%Q.
Proof.
  destruct (transition_lasts_100_frames arrived "graduation"
              (TexImage url_graduation) 100)
    as (s' & R & Ht & _ & _ & Hdone).
  - apply reachable_towardsOrange.
  - vm_compute; reflexivity.
  - vm_compute; discriminate.
  - exists s'. destruct Hdone as [Hi Hp]; [lia|]. repeat split; assumption.
Defined.

(** X2: from [setupMaterial] on the uniforms are a copy of the fields:
    [uTime] is [time], [uTex1] the source texture and [uTex2] the target. *)
Theorem uniforms_mirror_fields (s : State) :
  reachable s ->
  exists u,
    material s = Some u /\ uTime u = time s /\
    uTex1 u = currentSourceTexture s /\ uTex2 u = targetTexture s.
Proof.
  intros H. destruct (reachable_uniforms s H) as (u & Hu & Ht & H1 & H2 & _).
  exists u. repeat split; assumption.
Qed.

Lemma uniforms_mirror_fields_witness :
  exists u,
    material midFlight = Some u /\ uTime u = time midFlight /\
    uTex1 u = currentSourceTexture midFlight /\ uTex2 u = targetTexture midFlight.
Proof. apply (uniforms_mirror_fields midFlight), reachable_towardsOrange. Defined.

Lemma uMix_is_progress_of s u :
  reachable s -> material s = Some u -> uMix u = transitionProgress s.
Proof.
  intros Hr Hu. destruct (reachable_inv s Hr) as [_ Hmix _ _ _ _].
  rewrite Hu in Hmix. now injection Hmix.
Qed.

Section Screen.
Variable texture2D : option Texture -> Q * Q -> Q.
Variable distorted : Q -> Q * Q -> Q * Q -> Q * Q.
Variable vignette : Q * Q -> Q.

(** X3: [setTarget] with a registered name on an idle controller does not
    change the picture: the frame drawn right after the call is the frame
    drawn right before it. *)
Theorem setTarget_from_idle_keeps_picture
    (s : State) (name : string) (vUv : Q * Q) :
  reachable s ->
  isTransitioning s = false ->
  is_Some (textures s !! name) ->
  exists s' u u',
    material s = Some u /\ setTarget name s = Done s' /\ material s' = Some u' /\
    (fragColor texture2D distorted vignette u' vUv
     == fragColor texture2D distorted vignette u vUv)%Q.
Proof.
  intros Hr Hidle [t Hreg].
  destruct (reachable_uniforms s Hr) as (u & Hu & _ & H1 & H2 & Hrest).
  pose proof (uMix_is_progress_of s u Hr Hu) as Hmix.
  unfold setTarget. rewrite Hreg.
  destruct (decide (targetTexture s = Some t));
    [exists s, u, u; repeat split; try assumption; reflexivity|].
  rewrite Hu. eexists _, u, _. split; [reflexivity|]. split; [reflexivity|].
  split; [reflexivity|]. unfold fragColor, mix. simpl.
  rewrite H1, H2, Hmix.
  destruct (Hrest Hidle) as [-> | ->]; ring.
Qed.

(** X4: two calls with no frame in between (the pointer enters a card and
    leaves it again): the screen switches to the texture of the first call at
    full strength, which was never blended in, and the transition to the
    texture of the second call starts from there. *)
Theorem quick_hover_flashes_first_texture
    (s : State) (a b : string) (ta tb : Texture) (vUv : Q * Q) :
  reachable s ->
  textures s !! a = Some ta -> textures s !! b = Some tb ->
  targetTexture s <> Some ta -> ta <> tb ->
  exists s' u u',
    material s = Some u /\
    run [EvSetTarget a; EvSetTarget b] s = Done s' /\ material s' = Some u' /\
    currentSourceTexture s' = Some ta /\ targetTexture s' = Some tb /\
    transitionProgress s' = 0%Q /\ isTransitioning s' = true /\
    (fragColor texture2D distorted vignette u' vUv
     == alone texture2D distorted vignette (Some ta) u vUv)%Q.
Proof.
  intros Hr Ha Hb Hne Hab.
  destruct (reachable_inv s Hr) as [[u Hu] _ _ _ _ _].
  cbn [run handle]. rewrite (setTarget_new s u a ta Hu Ha Hne). cbn [andThen].
  erewrite setTarget_new; [|reflexivity|exact Hb|simpl; congruence].
  cbn [andThen]. eexists _, u, _. split; [exact Hu|]. split; [reflexivity|].
  split; [reflexivity|]. simpl. repeat (split; [reflexivity|]).
  unfold fragColor, alone, mix. simpl. ring.
Qed.

(** X5: every frame of a set-up background is a blend: each channel of a
    fragment lies between what the source texture alone and the target
    texture alone would give there. *)
Theorem frame_between_source_and_target (s : State) (vUv : Q * Q) :
  reachable s ->
  exists u,
    material s = Some u /\
    let src := alone texture2D distorted vignette (currentSourceTexture s) u vUv in
    let tgt := alone texture2D distorted vignette (targetTexture s) u vUv in
    (Qmin src tgt <= fragColor texture2D distorted vignette u vUv)%Q /\
    (fragColor texture2D distorted vignette u vUv <= Qmax src tgt)%Q.
Proof.
  intros Hr. destruct (reachable_inv s Hr) as [_ _ _ _ Hlo Hhi].
  destruct (reachable_uniforms s Hr) as (u & Hu & _ & H1 & H2 & _).
  pose proof (uMix_is_progress_of s u Hr Hu) as Hmix.
  exists u. split; [exact Hu|]. cbv zeta. rewrite <- H1, <- H2.
  unfold fragColor, alone, mix. rewrite Hmix.
  set (c := distorted (uTime u) (uResolution u) vUv).
  set (A := (texture2D (uTex1 u) c * vignette vUv)%Q).
  set (B := (texture2D (uTex2 u) c * vignette vUv)%Q).
  set (p := transitionProgress s) in *.
  destruct (Qlt_le_dec B A) as [Hlt|Hle].
  - assert (E : ((texture2D (uTex1 u) c * (1 - p) + texture2D (uTex2 u) c * p)
                 * vignette vUv == A - p * (A - B))%Q) by (unfold A, B; ring).
    assert (H1' : (p * (A - B) <= 1 * (A - B))%Q)
      by (apply Qmult_le_compat_r; [exact Hhi | lra]).
    assert (H0' : (0 <= p * (A - B))%Q) by (apply Qmult_le_0_compat; lra).
    rewrite E, Q.min_r, Q.max_l by lra. split; lra.
  - assert (E : ((texture2D (uTex1 u) c * (1 - p) + texture2D (uTex2 u) c * p)
                 * vignette vUv == A + p * (B - A))%Q) by (unfold A, B; ring).
    assert (H1' : (p * (B - A) <= 1 * (B - A))%Q)
      by (apply Qmult_le_compat_r; [exact Hhi | lra]).
    assert (H0' : (0 <= p * (B - A))%Q) by (apply Qmult_le_0_compat; lra).
    rewrite E, Q.min_l, Q.max_r by lra. split; lra.
Qed.
End Screen.

Lemma setTarget_from_idle_keeps_picture_witness :
  exists s' u u',
    material arrived = Some u /\ setTarget "graduation" arrived = Done s' /\
    material s' = Some u' /\
    (fragColor flat undistorted noVignette u' centre
     == fragColor flat undistorted noVignette u centre)%Q.
Proof.
  apply (setTarget_from_idle_keeps_picture flat undistorted noVignette
           arrived "graduation" centre).
  - apply reachable_towardsOrange.
  - vm_compute; reflexivity.
  - exists (TexImage url_graduation). vm_compute; reflexivity.
Defined.

Lemma quick_hover_flashes_first_texture_witness :
  exists s' u u',
    material settled = Some u /\
    run [EvSetTarget "orange"; EvSetTarget "default"] settled = Done s' /\
    material s' = Some u' /\
    currentSourceTexture s' = Some (TexImage url_orange) /\
    targetTexture s' = Some (TexImage url_default) /\
    transitionProgress s' = 0%Q /\ isTransitioning s' = true /\
    (fragColor flat undistorted noVignette u' centre
     == alone flat undistorted noVignette (Some (TexImage url_orange)) u centre)%Q.
Proof.
  apply (quick_hover_flashes_first_texture flat undistorted noVignette settled
           "orange" "default" (TexImage url_orange) (TexImage url_default) centre).
  - apply reachable_settled.
  - vm_compute; reflexivity.
  - vm_compute; reflexivity.
  - vm_compute; discriminate.
  - discriminate.
Defined.

Lemma frame_between_source_and_target_witness :
  exists u,
    material midFlight = Some u /\
    let src := alone flat undistorted noVignette (currentSourceTexture midFlight) u centre in
    let tgt := alone flat undistorted noVignette (targetTexture midFlight) u centre in
    (Qmin src tgt <= fragColor flat undistorted noVignette u centre)%Q /\
    (fragColor flat undistorted noVignette u centre <= Qmax src tgt)%Q.
Proof.
  apply (frame_between_source_and_target flat undistorted noVignette midFlight centre),
    reachable_towardsOrange.
Defined.

(** *** The registry and the resolution *)

Lemma reachable_textures s :
  reachable s ->
  exists d o g,
    textures s = <["graduation" := g]> (<["orange" := o]> (<["default" := d]> ∅)).
Proof.
  induction 1 as [evD evO evG w h s Hs | s ev Hr (d & o & g & E)].
  - rewrite loadTextures_resolves in Hs. injection Hs as <-.
    simpl. eexists _, _, _. reflexivity.
  - exists d, o, g. rewrite <- E. destruct ev as [name| |w h]; simpl.
    + unfold setTarget. destruct (textures s !! name); [|reflexivity].
      destruct (decide _); [reflexivity|]. now destruct (material s).
    + unfold animate. destruct (material s); [|reflexivity].
      destruct (isTransitioning s); [|reflexivity].
      now destruct (advance (transitionProgress s)).
    + unfold handleResize. now destruct (material s).
Qed.

(** X6: the registry of a set-up background holds the three names of
    [CONFIG.textures] and no other; [setTarget] with any other name (that
    [Object.prototype] does not define either) returns at its guard and
    leaves the state as it is. *)
Theorem unknown_texture_name_ignored (s : State) (name : string) :
  reachable s ->
  (is_Some (textures s !! name) <-> name ∈ textureNames) /\
  (name ∉ textureNames -> name ∉ objectPrototypeNames -> setTarget name s = Done s).
Proof.
  intros Hr. destruct (reachable_textures s Hr) as (d & o & g & E).
  assert (Hiff : is_Some (textures s !! name) <-> name ∈ textureNames).
  { rewrite E. unfold textureNames. rewrite !lookup_insert_is_Some, lookup_empty.
    rewrite !elem_of_cons, elem_of_nil. split.
    - intros [->|[_ [->|[_ [->|[_ [? ?]]]]]]]; [tauto|tauto|tauto|discriminate].
    - intros [->|[->|[->|[]]]].
      + right. split; [discriminate|]. right. split; [discriminate|]. now left.
      + right. split; [discriminate|]. now left.
      + now left. }
  split; [exact Hiff|]. intros Hn _. unfold setTarget.
  destruct (textures s !! name) eqn:El; [|reflexivity].
  exfalso. apply Hn, Hiff. eauto.
Qed.

Lemma unknown_texture_name_ignored_witness :
  setTarget "purple" midFlight = Done midFlight.
Proof.
  apply (unknown_texture_name_ignored midFlight "purple").
  - apply reachable_towardsOrange.
  - unfold textureNames. rewrite !elem_of_cons, elem_of_nil.
    intros [H|[H|[H|[]]]]; discriminate.
  - unfold objectPrototypeNames. rewrite !elem_of_cons, elem_of_nil.
    intros H. repeat (destruct H as [H|H]; [discriminate|]). exact H.
Defined.

(** X7: frames and [setTarget] never write [uResolution]: after any events
    it holds the size of the last resize among them, or the size it had. *)
Theorem resolution_is_last_resize (evs : list Event) (s : State) :
  reachable s ->
  exists s' u u',
    material s = Some u /\ run evs s = Done s' /\ material s' = Some u' /\
    uResolution u' = lastResize evs (uResolution u).
Proof.
  revert s. induction evs as [|ev rest IH]; intros s Hr.
  - destruct (reachable_inv s Hr) as [[u Hu] _ _ _ _ _].
    exists s, u, u. repeat split; assumption.
  - destruct (reachable_inv s Hr) as [[u Hu] _ _ _ _ _].
    pose proof (reach_step s ev Hr) as Hr1.
    assert (Hstep : exists s1 u1, handle ev s = Done s1 /\ material s1 = Some u1 /\
              lastResize (ev :: rest) (uResolution u) = lastResize rest (uResolution u1)).
    { destruct ev as [name| |w h]; simpl.
      - unfold setTarget. destruct (textures s !! name); [|eauto].
        destruct (decide _); [eauto|]. rewrite Hu. eauto.
      - unfold animate. rewrite Hu. destruct (isTransitioning s); [|eauto].
        destruct (advance (transitionProgress s)). eauto.
      - unfold handleResize. rewrite Hu. eauto. }
    destruct Hstep as (s1 & u1 & E1 & Hu1 & El). rewrite E1 in Hr1. simpl in Hr1.
    destruct (IH s1 Hr1) as (s' & u1' & u' & Hu1' & R & Hu' & Hres).
    rewrite Hu1 in Hu1'. injection Hu1' as <-.
    exists s', u, u'. cbn [run]. rewrite E1. cbn [andThen].
    repeat split; try assumption. now rewrite El.
Qed.

Lemma resolution_is_last_resize_witness :
  exists s' u u',
    material midFlight = Some u /\
    run [EvResize 800 600; EvFrame; EvSetTarget "default"; EvFrame] midFlight = Done s' /\
    material s' = Some u' /\
    uResolution u' = (800, 600)%Q.
Proof.
  apply (resolution_is_last_resize
           [EvResize 800 600; EvFrame; EvSetTarget "default"; EvFrame] midFlight),
    reachable_towardsOrange.
Defined.

Lemma handle_keeps_textures ev s : textures (stateOf (handle ev s)) = textures s.
Proof.
  destruct ev as [name| |w h]; simpl.
  - unfold setTarget. destruct (textures s !! name); [|reflexivity].
    destruct (decide _); [reflexivity|]. now destruct (material s).
  - unfold animate. destruct (material s); [|reflexivity].
    destruct (isTransitioning s); [|reflexivity].
    now destruct (advance (transitionProgress s)).
  - unfold handleResize. now destruct (material s).
Qed.

Lemma run_keeps_textures evs s : textures (stateOf (run evs s)) = textures s.
Proof.
  revert s. induction evs as [|ev rest IH]; intros s; [reflexivity|]. simpl.
  pose proof (handle_keeps_textures ev s) as H.
  destruct (handle ev s) as [s1|e s1]; simpl in *; [now rewrite IH | exact H].
Qed.

(** X8: when the orange image fails to load, its name is an alias of
    [default] for the rest of the session: after any events, [setTarget]
    with either name does the same; the same holds for the graduation image. *)
Theorem failed_texture_aliases_default
    (evDefault evOrange evGrad : LoadEvent) (w h : Q) (s0 : State) (evs : list Event) :
  loadTextures evDefault evOrange evGrad constructed = Resolved s0 ->
  let s := stateOf (run evs (setupMaterial w h s0)) in
  (evOrange = OnError -> setTarget "orange" s = setTarget "default" s) /\
  (evGrad = OnError -> setTarget "graduation" s = setTarget "default" s).
Proof.
  rewrite loadTextures_resolves. intros [= <-]. cbv zeta.
  split; intros ->; unfold setTarget; rewrite run_keeps_textures; simpl;
    destruct evDefault; simpl; by simplify_map_eq.
Qed.

Lemma failed_texture_aliases_default_witness :
  let s := stateOf (run [EvFrame; EvFrame]
                      (setupMaterial 1920 1080
                         (bindTextures (Some (TexImage url_default), None,
                                        Some (TexImage url_graduation)) constructed))) in
  setTarget "orange" s = Done s.
Proof.
  cbv zeta.
  destruct (failed_texture_aliases_default (OnLoad (TexImage url_default)) OnError
              (OnLoad (TexImage url_graduation)) 1920 1080 _ [EvFrame; EvFrame]
              eq_refl) as [Ho _].
  rewrite (Ho eq_refl). vm_compute. reflexivity.
Defined.

(** *** Hovering a card *)

Lemma run_reachable evs s s' : reachable s -> run evs s = Done s' -> reachable s'.
Proof.
  intros Hr E. pose proof (reachable_run evs s Hr) as H. now rewrite E in H.
Qed.

Section Hovering.
Variable texture2D : option Texture -> Q * Q -> Q.
Variable distorted : Q -> Q * Q -> Q * Q -> Q * Q.
Variable vignette : Q * Q -> Q.

(** X9: hovering the first card and leaving it again brings the default
    image back.  From a state whose target is the default texture, with an
    orange texture of its own: the pointer enters, at least 100 frames pass,
    it leaves, at least 100 frames pass; then the controller is idle, the
    target is the default texture again and the screen shows it alone. *)
Theorem hover_and_leave_returns_to_default
    (s : State) (card2 : bool) (td to : Texture) (n m : nat) (vUv : Q * Q) :
  reachable s ->
  textures s !! "default" = Some td -> textures s !! "orange" = Some to ->
  targetTexture s = Some td -> td <> to ->
  100 <= n -> 100 <= m ->
  exists s' u',
    run (hover true card2 Enter1 ++ replicate n EvFrame
         ++ hover true card2 Leave1 ++ replicate m EvFrame) s = Done s' /\
    material s' = Some u' /\
    isTransitioning s' = false /\ targetTexture s' = Some td /\
    currentSourceTexture s' = Some to /\
    (fragColor texture2D distorted vignette u' vUv
     == alone texture2D distorted vignette (Some td) u' vUv)%Q.
Proof.
  intros Hr Hd Ho Ht Hne Hn Hm. cbn [hover hoverTarget app].
  destruct (transition_settles s "orange" to n Hr Ho)
    as (s1 & R1 & Ht1 & Hs1 & _ & _); [congruence|exact Hn|].
  change (EvSetTarget "orange" :: replicate n EvFrame
          ++ EvSetTarget "default" :: replicate m EvFrame)
    with ((EvSetTarget "orange" :: replicate n EvFrame)
          ++ (EvSetTarget "default" :: replicate m EvFrame)).
  rewrite run_app, R1. cbn [andThen].
  pose proof (run_reachable _ _ _ Hr R1) as Hr1.
  assert (Hd1 : textures s1 !! "default" = Some td).
  { pose proof (run_keeps_textures (EvSetTarget "orange" :: replicate n EvFrame) s) as K.
    rewrite R1 in K. simpl in K. now rewrite K. }
  destruct (transition_settles s1 "default" td m Hr1 Hd1)
    as (s2 & R2 & Ht2 & Hs2 & Hi2 & Hp2); [congruence|exact Hm|].
  pose proof (run_reachable _ _ _ Hr1 R2) as Hr2.
  destruct (reachable_uniforms s2 Hr2) as (u2 & Hu2 & _ & H1 & H2 & _).
  pose proof (uMix_is_progress_of s2 u2 Hr2 Hu2) as Hmix.
  exists s2, u2. split; [exact R2|]. split; [exact Hu2|]. split; [exact Hi2|].
  split; [exact Ht2|]. split; [congruence|].
  unfold fragColor, alone, mix. rewrite Hmix, Hp2, H2, Ht2. ring.
Qed.
End Hovering.

Lemma hover_and_leave_returns_to_default_witness :
  exists s' u',
    run (hover true true Enter1 ++ replicate 100 EvFrame
         ++ hover true true Leave1 ++ replicate 100 EvFrame) settled = Done s' /\
    material s' = Some u' /\
    isTransitioning s' = false /\ targetTexture s' = Some (TexImage url_default) /\
    currentSourceTexture s' = Some (TexImage url_orange) /\
    (fragColor flat undistorted noVignette u' centre
     == alone flat undistorted noVignette (Some (TexImage url_default)) u' centre)%Q.
Proof.
  apply (hover_and_leave_returns_to_default flat undistorted noVignette settled true
           (TexImage url_default) (TexImage url_orange) 100 100 centre).
  - apply reachable_settled.
  - vm_compute; reflexivity.
  - vm_compute; reflexivity.
  - vm_compute; reflexivity.
  - discriminate.
  - lia.
  - lia.
Defined.

End BackgroundFacts.

(** ** The pointer tracker of the blob cursor *)

Module BlobCursorFacts.
Import BlobCursor.

Lemma point_eta (p : Point) : {| x := x p; y := y p |} = p.
Proof. now destruct p. Qed.

(** *** C6 *)

(** C6: a touchstart event that carries a touch puts [mouse], [target] and
    every blob of the chain on the coordinates of its first touch, inside the
    handler itself, whatever the state before (in particular when no touch
    was in progress); it also marks the cursor touching and active. *)
Theorem handleTouchStart_snaps (s : State) (t : Point) (others : list Point) :
  let s' := handleTouchStart (t :: others) s in
  mouse (position s') = t /\
  target (position s') = t /\
  Forall (fun b => pos b = t) (blobs s') /\
  length (blobs s') = length (blobs s) /\
  isTouching (touch s') = true /\
  isActive (touch s') = true.
Proof.
  simpl. rewrite !point_eta. repeat split.
  - unfold setBlobOpacity. rewrite Forall_map, Forall_map.
    apply Forall_forall. intros b _. simpl. apply point_eta.
  - unfold setBlobOpacity. now rewrite !length_map.
Qed.

(** *** C7 *)

(** The velocity [updatePosition] computes is measured from [lastPosition],
    and [lastPosition] is set to the target the call found, not to the
    position the call received: after three calls the velocity spans the
    last two moves. *)
Lemma updatePosition_velocity_two_back (s : State) (p1 p2 p3 : Point) :
  let s3 := updatePosition p3 (updatePosition p2 (updatePosition p1 s)) in
  velocity (position s3)
  = {| x := (x p3 - x p1) * velocityMultiplier;
       y := (y p3 - y p1) * velocityMultiplier |} /\
  lastPosition (position s3) = p2 /\
  target (position s3) = p3.
Proof.
  simpl. rewrite !point_eta. repeat split.
Qed.

Lemma decay_succ (k : nat) :
  (velocityDecay ^ Z.of_nat (S k) == velocityDecay * velocityDecay ^ Z.of_nat k)%Q.
Proof.
  rewrite Nat2Z.inj_succ, <- Z.add_1_l.
  rewrite Qpower_plus by (unfold velocityDecay; discriminate).
  reflexivity.
Qed.

(** X30: With no input between them, [k] ticks multiply each component of the
    velocity by [0.9 ^ k], whatever the frame times. *)
Lemma velocity_decays_geometrically (sqrt : Q -> Q) (nows : list Q) (s : State) :
  let v0 := velocity (position s) in
  let v := velocity (position (idle sqrt nows s)) in
  (x v == x v0 * velocityDecay ^ Z.of_nat (length nows))%Q /\
  (y v == y v0 * velocityDecay ^ Z.of_nat (length nows))%Q.
Proof.
  revert s. induction nows as [|now rest IH]; intros s.
  - simpl. split; ring.
  - destruct (IH (animate sqrt now s)) as [Hx Hy].
    cbn [idle length]. cbv zeta in *.
    assert (Ex : x (velocity (position (animate sqrt now s)))
                 = (x (velocity (position s)) * velocityDecay)%Q) by reflexivity.
    assert (Ey : y (velocity (position (animate sqrt now s)))
                 = (y (velocity (position s)) * velocityDecay)%Q) by reflexivity.
    rewrite Ex in Hx. rewrite Ey in Hy.
    split.
    + rewrite Hx, decay_succ. ring.
    + rewrite Hy, decay_succ. ring.
Qed.

Lemma speed2_decays (sqrt : Q -> Q) (nows : list Q) (s : State) :
  (speed2 (velocity (position (idle sqrt nows s)))
   == speed2 (velocity (position s))
      * (velocityDecay ^ Z.of_nat (length nows)) ^ 2)%Q.
Proof.
  revert s. induction nows as [|now rest IH]; intros s.
  - simpl. unfold speed2. ring.
  - cbn [idle length]. rewrite IH.
    assert (E : (speed2 (velocity (position (animate sqrt now s)))
                 == speed2 (velocity (position s)) * velocityDecay ^ 2)%Q).
    { unfold speed2.
      change (x (velocity (position (animate sqrt now s))))
        with (x (velocity (position s)) * velocityDecay)%Q.
      change (y (velocity (position (animate sqrt now s))))
        with (y (velocity (position s)) * velocityDecay)%Q.
      ring. }
    rewrite E, decay_succ. ring.
Qed.

(** C7: three mouse moves in a row, to x = 100, 110 and 130.  Measured from
    the preceding position the velocity after the third would be
    (130 - 110) * 1.2 = 24; the code
    leaves (130 - 100) * 1.2 = 36, measured from the position of two updates
    back, because [lastPosition] takes the old target before the target is
    overwritten. *)
Theorem velocity_spans_two_updates :
  (x (velocity (position threeMoves)) == 36)%Q /\
  ~ (x (velocity (position threeMoves)) == (x p3 - x p2) * velocityMultiplier)%Q /\
  lastPosition (position threeMoves) = p2 /\
  target (position threeMoves) = p3.
Proof.
  split; [vm_compute; reflexivity|].
  split; [vm_compute; discriminate|].
  split; vm_compute; reflexivity.
Qed.

(** *** The frame callbacks of the cursor *)

Section Frames.
Variable sqrt : Q -> Q.

Lemma framesTracked_animate now s :
  frames (browser s) = ∅ -> framesTracked (animate sqrt now s).
Proof.
  intros He h. unfold animate. simpl. rewrite He. intros Hh.
  f_equal. set_solver.
Qed.

Lemma framesTracked_same s s' :
  frames (browser s') = frames (browser s) ->
  rafId (animation s') = rafId (animation s) ->
  framesTracked s -> framesTracked s'.
Proof. unfold framesTracked. intros -> ->. auto. Qed.

Lemma framesTracked_without s h :
  framesTracked s -> rafId (animation s) = Some h ->
  frames (browser s) ∖ {[h]} = ∅.
Proof.
  intros Hs Hh. apply leibniz_equiv. intros i. split; [|set_solver].
  intros Hi. apply elem_of_difference in Hi as [Hi Hne].
  apply Hs in Hi. rewrite Hh in Hi. set_solver.
Qed.

Lemma framesTracked_none s :
  framesTracked s -> rafId (animation s) = None -> frames (browser s) = ∅.
Proof.
  intros Hs Hn. apply leibniz_equiv. intros i. split; [|set_solver].
  intros Hi. apply Hs in Hi. congruence.
Qed.

Lemma framesTracked_handle ev s :
  framesTracked s -> framesTracked (handle sqrt ev s).
Proof.
  intros Hs. destruct ev; simpl.
  - destruct (isTouch s); [exact Hs|]. revert Hs. now apply framesTracked_same.
  - destruct touches; [exact Hs|]. revert Hs. apply framesTracked_same; [|reflexivity].
    simpl. now destruct (fadeOutTimer (touch s)).
  - unfold handleTouchMove. destruct (isTouching (touch s)); [|exact Hs]. simpl.
    destruct touches; [exact Hs|]. revert Hs.
    apply framesTracked_same; now destruct (isActive (touch s)).
  - revert Hs. now apply framesTracked_same.
  - revert Hs. now apply framesTracked_same.
  - unfold handleVisibilityChange.
    destruct hidden, (rafId (animation s)) as [h|] eqn:E; try exact Hs.
    + intros i. simpl. rewrite (framesTracked_without s h Hs E). set_solver.
    + apply framesTracked_animate. simpl. now apply framesTracked_none.
  - destruct (decide (h ∈ frames (browser s))) as [Hin|]; [|exact Hs].
    apply framesTracked_animate. simpl.
    apply framesTracked_without; [exact Hs | now apply Hs].
  - destruct (timers (browser s) !! h) as [[|]|]; [| |exact Hs];
      revert Hs; now apply framesTracked_same.
  - revert Hs. now apply framesTracked_same.
  - revert Hs. now apply framesTracked_same.
  - intros i. simpl.
    destruct (rafId (animation s)) as [h|] eqn:E; simpl.
    + assert (Hf : frames (whenSet (fadeOutTimer (touch s)) clearTimeout
                     (whenSet (touchHoldTimer (touch s)) clearTimeout
                        (cancelAnimationFrame h (browser s))))
                   = frames (browser s) ∖ {[h]}).
      { now destruct (fadeOutTimer (touch s)), (touchHoldTimer (touch s)). }
      rewrite Hf, (framesTracked_without s h Hs E). set_solver.
    + assert (Hf : frames (whenSet (fadeOutTimer (touch s)) clearTimeout
                     (whenSet (touchHoldTimer (touch s)) clearTimeout (browser s)))
                   = frames (browser s)).
      { now destruct (fadeOutTimer (touch s)), (touchHoldTimer (touch s)). }
      rewrite Hf, (framesTracked_none s Hs E). set_solver.
Qed.

Lemma reachable_framesTracked s : reachable sqrt s -> framesTracked s.
Proof.
  induction 1 as [touchDevice w h t0 t1 | s ev _ IH].
  - apply framesTracked_animate. reflexivity.
  - now apply framesTracked_handle.
Qed.
End Frames.

(** *** destroy *)

Lemma whenSet_clearTimeout_frames o b :
  frames (whenSet o clearTimeout b) = frames b.
Proof. now destruct o. Qed.

Lemma removeAll_nil (children : list nat) : removeAll [] children = children.
Proof.
  unfold removeAll. simpl. induction children as [|n rest IH]; [reflexivity|].
  rewrite filter_cons_True by apply not_elem_of_nil. now rewrite IH.
Qed.

Lemma removeAll_gone (bs : list Blob) (children : list nat) (b : Blob) :
  b ∈ bs -> node (el b) ∉ removeAll bs children.
Proof.
  intros Hb Hin. unfold removeAll in Hin.
  apply list_elem_of_filter in Hin as [Hnot _].
  apply Hnot. apply list_elem_of_In, in_map_iff. exists b. split; [reflexivity|].
  now apply list_elem_of_In.
Qed.

(** The timers [destroy] clears are no longer pending. *)
Lemma destroy_timers (s : State) (h : positive) :
  touchHoldTimer (touch s) = Some h \/ fadeOutTimer (touch s) = Some h ->
  timers (browser (destroy s)) !! h = None.
Proof.
  intros H. unfold destroy. simpl.
  destruct (rafId (animation s)), (touchHoldTimer (touch s)) as [a|],
    (fadeOutTimer (touch s)) as [b|]; simpl;
    destruct H as [H|H]; try discriminate; injection H as ->;
    try apply lookup_delete_eq;
    (destruct (decide (b = h)) as [->|Hne];
     [apply lookup_delete_eq | rewrite lookup_delete_ne by done; apply lookup_delete_eq]).
Qed.

Lemma destroy_idempotent (s : State) : destroy (destroy s) = destroy s.
Proof.
  unfold destroy. simpl. rewrite removeAll_nil.
  destruct (rafId (animation s)) as [h|], (touchHoldTimer (touch s)) as [a|],
    (fadeOutTimer (touch s)) as [b|]; simpl; f_equal; f_equal;
    try (apply leibniz_equiv; set_solver);
    try (apply map_eq; intros i; rewrite !lookup_delete;
         repeat case_decide; congruence).
Qed.

(** [destroy] clears the timers whose handles the cursor still stores.  A
    fade-out timer whose handle a second touchend has overwritten stays
    pending in the browser; when it fires it hides blobs that are gone. *)
Lemma destroy_keeps_overwritten_timer :
  fadeOutTimer (touch twoLifts) = Some 3%positive /\
  timers (browser twoLifts) !! 2%positive = Some FadeOut /\
  timers (browser (destroy twoLifts)) !! 3%positive = None /\
  timers (browser (destroy twoLifts)) !! 2%positive = Some FadeOut /\
  frames (browser (destroy twoLifts)) = ∅.
Proof. repeat split; vm_compute; reflexivity. Qed.

(** *** createBlobs *)

Lemma createFrom_lookup cfg i n k b :
  createFrom cfg i n !! k = Some b ->
  k < n /\ node (el b) = i + k /\
  pos b = {| x := initialPosition; y := initialPosition |} /\
  radius b = (size cfg * (1 - inject_Z (Z.of_nat (i + k))
                              / inject_Z (Z.of_nat (count cfg + 2))))%Q /\
  r (el b) = radius b /\ cx (el b) = None /\ cy (el b) = None /\
  opacity (el b) = None.
Proof.
  revert i k. induction n as [|n IH]; intros i k H; [discriminate|].
  destruct k as [|k]; simpl in H.
  - injection H as <-. rewrite Nat.add_0_r. simpl. repeat split. lia.
  - apply IH in H as (Hk & Hn & Hrest). replace (i + S k) with (S i + k) by lia.
    split; [lia|]. split; [exact Hn|]. exact Hrest.
Qed.

Lemma createFrom_length cfg i n : length (createFrom cfg i n) = n.
Proof. revert i. induction n as [|n IH]; intros i; simpl; [reflexivity|]. now rewrite IH. Qed.

Lemma createBlobs_lookup touchDevice cfg k b :
  createBlobs touchDevice cfg !! k = Some b ->
  k < count cfg /\ node (el b) = k /\
  pos b = {| x := initialPosition; y := initialPosition |} /\
  radius b = (size cfg * (1 - inject_Z (Z.of_nat k)
                              / inject_Z (Z.of_nat (count cfg + 2))))%Q /\
  r (el b) = radius b /\
  opacity (el b) = (if touchDevice then Some 0%Q else None).
Proof.
  unfold createBlobs. destruct touchDevice.
  - unfold setBlobOpacity. rewrite list_lookup_fmap.
    destruct (createFrom cfg 0 (count cfg) !! k) as [b0|] eqn:E; [|discriminate].
    intros [= <-]. apply createFrom_lookup in E as (Hk & Hn & Hp & Hr & Hre & _).
    simpl. repeat split; assumption.
  - intros E. apply createFrom_lookup in E as (Hk & Hn & Hp & Hr & Hre & _ & _ & Ho).
    repeat split; assumption.
Qed.

Lemma radius_formula_decreasing (sz : Q) (n i j : nat) :
  (0 < sz)%Q -> i < j -> j < n ->
  (0 < sz * (1 - inject_Z (Z.of_nat j) / inject_Z (Z.of_nat (n + 2))))%Q /\
  (sz * (1 - inject_Z (Z.of_nat j) / inject_Z (Z.of_nat (n + 2)))
   < sz * (1 - inject_Z (Z.of_nat i) / inject_Z (Z.of_nat (n + 2))))%Q.
Proof.
  intros Hs Hij Hjn.
  assert (Hd : (0 < inject_Z (Z.of_nat (n + 2)))%Q).
  { change 0%Q with (inject_Z 0). rewrite <- Zlt_Qlt. lia. }
  assert (Hj : (inject_Z (Z.of_nat j) / inject_Z (Z.of_nat (n + 2)) < 1)%Q).
  { apply Qlt_shift_div_r; [exact Hd|]. rewrite Qmult_1_l. rewrite <- Zlt_Qlt. lia. }
  assert (Hi : (inject_Z (Z.of_nat i) / inject_Z (Z.of_nat (n + 2))
                < inject_Z (Z.of_nat j) / inject_Z (Z.of_nat (n + 2)))%Q).
  { unfold Qdiv. apply Qmult_lt_compat_r; [now apply Qinv_lt_0_compat|].
    rewrite <- Zlt_Qlt. lia. }
  split.
  - apply Qmult_lt_0_compat; lra.
  - apply Qmult_lt_l; [exact Hs | lra].
Qed.

(** X13: [createBlobs] makes [count] blobs; the blob at index [i] owns the
    circle [i], rests at (-500, -500) off screen, has the radius
    size * (1 - i / (count + 2)), which is positive and smaller than the
    radius of every blob before it, and is transparent on a touch device. *)
Theorem createBlobs_shrinking_chain (touchDevice : bool) (cfg : Config) :
  (0 < size cfg)%Q ->
  length (createBlobs touchDevice cfg) = count cfg /\
  forall i b,
    createBlobs touchDevice cfg !! i = Some b ->
    node (el b) = i /\
    pos b = {| x := initialPosition; y := initialPosition |} /\
    radius b = (size cfg * (1 - inject_Z (Z.of_nat i)
                                / inject_Z (Z.of_nat (count cfg + 2))))%Q /\
    r (el b) = radius b /\
    opacity (el b) = (if touchDevice then Some 0%Q else None) /\
    (0 < radius b)%Q /\ (radius b <= size cfg)%Q /\
    forall j b', i < j -> createBlobs touchDevice cfg !! j = Some b' ->
                 (radius b' < radius b)%Q.
Proof.
  intros Hs. split.
  - unfold createBlobs. destruct touchDevice; unfold setBlobOpacity;
      rewrite ?length_map; apply createFrom_length.
  - intros i b Hb.
    destruct (createBlobs_lookup _ _ _ _ Hb) as (Hi & Hn & Hp & Hr & Hre & Ho).
    repeat (split; [assumption|]).
    assert (Hd : (0 < inject_Z (Z.of_nat (count cfg + 2)))%Q).
    { change 0%Q with (inject_Z 0). rewrite <- Zlt_Qlt. lia. }
    rewrite Hr. split; [|split].
    + destruct i as [|i'].
      * apply Qmult_lt_0_compat; [exact Hs|]. unfold Qdiv. simpl inject_Z.
        rewrite Qmult_0_l. reflexivity.
      * apply (radius_formula_decreasing (size cfg) (count cfg) 0 (S i')); [exact Hs|lia|lia].
    + assert (Hq : (0 <= inject_Z (Z.of_nat i) / inject_Z (Z.of_nat (count cfg + 2)))%Q).
      { apply Qle_shift_div_l; [exact Hd|]. rewrite Qmult_0_l.
        change 0%Q with (inject_Z 0). rewrite <- Zle_Qle. lia. }
      assert (Hm : (size cfg * (inject_Z (Z.of_nat i) / inject_Z (Z.of_nat (count cfg + 2)))
                    >= 0)%Q) by (apply Qmult_le_0_compat; lra).
      setoid_replace (size cfg * (1 - inject_Z (Z.of_nat i)
                                      / inject_Z (Z.of_nat (count cfg + 2))))%Q
        with (size cfg - size cfg * (inject_Z (Z.of_nat i)
                                     / inject_Z (Z.of_nat (count cfg + 2))))%Q
        using relation Qeq by ring.
      lra.
    + intros j b' Hij Hb'.
      destruct (createBlobs_lookup _ _ _ _ Hb') as (Hj & _ & _ & Hr' & _).
      rewrite Hr'. now apply radius_formula_decreasing.
Qed.

Lemma createBlobs_shrinking_chain_witness :
  length (createBlobs true mobile) = 5 /\
  length (createBlobs false desktop) = 12.
Proof.
  split.
  - apply (createBlobs_shrinking_chain true mobile). reflexivity.
  - apply (createBlobs_shrinking_chain false desktop). reflexivity.
Defined.

(** *** Smoothing *)

Lemma approach_offset (a b k : Q) :
  (b - approach a b k == (b - a) * (1 - k))%Q.
Proof. unfold approach. ring. Qed.

Lemma deltaTime_range (currentTime lastTime : Q) :
  (lastTime <= currentTime)%Q ->
  (0 <= deltaTime currentTime lastTime)%Q /\ (deltaTime currentTime lastTime <= 2)%Q.
Proof.
  intros H. unfold deltaTime, maxDelta, frameInterval. split.
  - apply Q.min_glb; [|discriminate]. apply Qle_shift_div_l; [reflexivity|lra].
  - apply Q.le_min_r.
Qed.

Lemma deltaTime_nominal (t : Q) : (deltaTime (t + frameInterval) t == 1)%Q.
Proof.
  unfold deltaTime, maxDelta.
  setoid_replace (t + frameInterval - t)%Q with frameInterval using relation Qeq by ring.
  unfold frameInterval. reflexivity.
Qed.

Lemma lagPrimary_range (s : State) :
  (0 < lagPrimary (config s))%Q /\ (lagPrimary (config s) <= 1 # 2)%Q.
Proof. unfold config. destruct (isTouch s); split; reflexivity || discriminate. Qed.

Section Smoothing.
Variable sqrt : Q -> Q.

Lemma animate_mouse (currentTime : Q) (s : State) :
  let k := (deltaTime currentTime (lastTime (animation s)))%Q in
  let ps := position s in
  mouse (position (animate sqrt currentTime s))
  = {| x := x (mouse ps) + (x (target ps) - x (mouse ps)) * lagPrimary (config s) * k;
       y := y (mouse ps) + (y (target ps) - y (mouse ps)) * lagPrimary (config s) * k |}.
Proof. reflexivity. Qed.

(** X14: a tick moves the primary point towards the target and never past
    it: with a clock that does not run backwards the step factor
    lagPrimary * deltaTime lies in [0, 1], the distance to the target is
    multiplied by one minus that factor, and the target itself stays. *)
Theorem primary_point_never_overshoots (currentTime : Q) (s : State) :
  (lastTime (animation s) <= currentTime)%Q ->
  let k := (lagPrimary (config s)
            * deltaTime currentTime (lastTime (animation s)))%Q in
  let s' := animate sqrt currentTime s in
  let m := mouse (position s) in
  let m' := mouse (position s') in
  let t := target (position s) in
  (0 <= k)%Q /\ (k <= 1)%Q /\
  target (position s') = t /\
  (x t - x m' == (x t - x m) * (1 - k))%Q /\
  (y t - y m' == (y t - y m) * (1 - k))%Q.
Proof.
  intros Hclock. cbv zeta.
  destruct (deltaTime_range _ _ Hclock) as [D0 D2].
  destruct (lagPrimary_range s) as [L0 L1].
  set (dt := deltaTime currentTime (lastTime (animation s))) in *.
  set (lag := lagPrimary (config s)) in *.
  assert (K0 : (0 <= lag * dt)%Q) by (apply Qmult_le_0_compat; lra).
  assert (K1 : (lag * dt <= (1 # 2) * 2)%Q).
  { apply Qle_trans with (lag * 2)%Q.
    - rewrite !(Qmult_comm lag). apply Qmult_le_compat_r; lra.
    - apply Qmult_le_compat_r; lra. }
  split; [exact K0|]. split; [lra|]. split; [reflexivity|].
  rewrite animate_mouse. cbv zeta. cbn [x y]. fold dt. fold lag. split; ring.
Qed.

Lemma idle_keeps_config nows s : isTouch (idle sqrt nows s) = isTouch s.
Proof. revert s. induction nows as [|n rest IH]; intros s; simpl; [reflexivity|]. now rewrite IH. Qed.

Lemma pow_succ_Q (q : Q) (k : nat) : (q ^ Z.of_nat (S k) == q * q ^ Z.of_nat k)%Q.
Proof.
  rewrite Nat2Z.inj_succ, <- Z.add_1_l. rewrite Qpower_plus' by lia. reflexivity.
Qed.

(** X15: at 60 frames per second and with the target held, the distance of
    the primary point to the target shrinks geometrically: after [k] frames
    it is (1 - lagPrimary)^k times the distance at the start. *)
Theorem primary_point_converges_geometrically (k : nat) (s : State) :
  let s' := idle sqrt (nominalTimes (lastTime (animation s)) k) s in
  let t := target (position s) in
  target (position s') = t /\
  (x t - x (mouse (position s'))
   == (x t - x (mouse (position s))) * (1 - lagPrimary (config s)) ^ Z.of_nat k)%Q /\
  (y t - y (mouse (position s'))
   == (y t - y (mouse (position s))) * (1 - lagPrimary (config s)) ^ Z.of_nat k)%Q.
Proof.
  cbv zeta. revert s. induction k as [|k IH]; intros s.
  - simpl. repeat split; ring.
  - cbn [nominalTimes idle].
    set (s1 := animate sqrt (lastTime (animation s) + frameInterval) s).
    assert (Hl : lastTime (animation s1) = (lastTime (animation s) + frameInterval)%Q)
      by reflexivity.
    assert (Hc : config s1 = config s) by reflexivity.
    assert (Ht : target (position s1) = target (position s)) by reflexivity.
    rewrite <- Hl. destruct (IH s1) as (T & X & Y). rewrite Ht, Hc in *.
    split; [exact T|].
    pose proof (deltaTime_nominal (lastTime (animation s))) as Hd.
    assert (Hx : (x (target (position s)) - x (mouse (position s1))
                  == (x (target (position s)) - x (mouse (position s)))
                     * (1 - lagPrimary (config s)))%Q).
    { unfold s1. rewrite animate_mouse. cbv zeta. cbn [x]. rewrite Hd. ring. }
    assert (Hy : (y (target (position s)) - y (mouse (position s1))
                  == (y (target (position s)) - y (mouse (position s)))
                     * (1 - lagPrimary (config s)))%Q).
    { unfold s1. rewrite animate_mouse. cbv zeta. cbn [y]. rewrite Hd. ring. }
    rewrite X, Y, Hx, Hy, pow_succ_Q. split; ring.
Qed.
End Smoothing.

Lemma primary_point_never_overshoots_witness :
  let s' := animate sqrtFloor (2 * frameInterval) threeMoves in
  (x (target (position threeMoves)) - x (mouse (position s'))
   == (x (target (position threeMoves)) - x (mouse (position threeMoves)))
      * (1 - (1 # 4) * 1))%Q.
Proof.
  cbv zeta.
  destruct (primary_point_never_overshoots sqrtFloor (2 * frameInterval) threeMoves)
    as (_ & _ & _ & Hx & _).
  - vm_compute. discriminate.
  - rewrite Hx. vm_compute. reflexivity.
Defined.

Section Chain.
Variable sqrt : Q -> Q.

(** What the loop body of [animate] does to the blob at position [i] of the
    list, when the loop starts at [index] with the running target [tgt]. *)
Lemma follow_lookup cfg dt stretch v bs :
  forall index tgt i b,
    bs !! i = Some b ->
    exists b' leader,
      follow sqrt cfg dt stretch v index tgt bs !! i = Some b' /\
      match i with
      | O => leader = tgt
      | S j => pos <$> (follow sqrt cfg dt stretch v index tgt bs !! j) = Some leader
      end /\
      pos b' = {| x := approach (x (pos b)) (x leader) (lagAt cfg (index + i) * dt);
                  y := approach (y (pos b)) (y leader) (lagAt cfg (index + i) * dt) |} /\
      radius b' = radius b /\ node (el b') = node (el b) /\
      opacity (el b') = opacity (el b) /\
      cx (el b') = Some (x (pos b')) /\ cy (el b') = Some (y (pos b')) /\
      r (el b') = (if stretch
                   then radius b * (1 + Qmin (sqrt (x v ^ 2 + y v ^ 2) * (2 # 1000))
                                          (3 # 10))
                   else radius b)%Q.
Proof.
  induction bs as [|b0 rest IH]; intros index tgt i b Hb; [discriminate|].
  destruct i as [|i].
  - injection Hb as ->. cbn [follow]. eexists _, tgt. split; [reflexivity|].
    split; [reflexivity|]. rewrite Nat.add_0_r. cbn [pos radius el node opacity cx cy r].
    repeat split.
  - cbn [follow]. simpl in Hb.
    set (p0 := {| x := approach (x (pos b0)) (x tgt) (lagAt cfg index * dt);
                  y := approach (y (pos b0)) (y tgt) (lagAt cfg index * dt) |}).
    destruct (IH (S index) p0 i b Hb) as (b' & leader & Hl & Hlead & Hrest).
    exists b', leader. split; [exact Hl|]. split.
    + destruct i as [|j]; [subst leader; reflexivity | exact Hlead].
    + replace (index + S i) with (S index + i) by lia. exact Hrest.
Qed.

Lemma follow_length cfg dt stretch v bs index tgt :
  length (follow sqrt cfg dt stretch v index tgt bs) = length bs.
Proof.
  revert index tgt. induction bs as [|b rest IH]; intros index tgt; [reflexivity|].
  cbn [follow length]. now rewrite IH.
Qed.

Lemma animate_blobs (currentTime : Q) (s : State) :
  blobs (animate sqrt currentTime s)
  = follow sqrt (config s) (deltaTime currentTime (lastTime (animation s)))
      (isActive (touch s) && isTouching (touch s)) (velocity (position s)) 0
      (mouse (position (animate sqrt currentTime s))) (blobs s).
Proof. reflexivity. Qed.

(** X16: follow the leader.  A tick keeps the number of blobs, their circles
    and radii, and moves the blob at index [i] towards its leader as the
    tick leaves it (the primary point for the first blob, the blob before it
    for the others), by the factor lag * deltaTime with [lagPrimary] for the
    first blob and [lagSecondary] for the rest. *)
Theorem chain_follows_leader (currentTime : Q) (s : State) (i : nat) (b : Blob) :
  blobs s !! i = Some b ->
  let s' := animate sqrt currentTime s in
  let k := (lagAt (config s) i * deltaTime currentTime (lastTime (animation s)))%Q in
  length (blobs s') = length (blobs s) /\
  exists b' leader,
    blobs s' !! i = Some b' /\
    match i with
    | O => leader = mouse (position s')
    | S j => pos <$> (blobs s' !! j) = Some leader
    end /\
    radius b' = radius b /\ node (el b') = node (el b) /\
    (x leader - x (pos b') == (x leader - x (pos b)) * (1 - k))%Q /\
    (y leader - y (pos b') == (y leader - y (pos b)) * (1 - k))%Q.
Proof.
  intros Hb. cbv zeta. rewrite animate_blobs. split; [apply follow_length|].
  destruct (follow_lookup (config s)
              (deltaTime currentTime (lastTime (animation s)))
              (isActive (touch s) && isTouching (touch s)) (velocity (position s))
              (blobs s) 0 (mouse (position (animate sqrt currentTime s))) i b Hb)
    as (b' & leader & Hl & Hlead & Hp & Hr & Hn & _).
  exists b', leader. split; [exact Hl|]. split; [exact Hlead|].
  split; [exact Hr|]. split; [exact Hn|]. rewrite Hp. cbn [x y Nat.add].
  split; apply approach_offset.
Qed.

(** X17: what is drawn.  After a tick every circle sits on its blob
    ([cx], [cy] are the blob's position).  Its [r] is the blob's radius
    unless a touch is active; with [Math.sqrt] not negative and a radius not
    negative, [r] is never below the radius and never above 1.3 times it. *)
Theorem circles_drawn_on_blobs (currentTime : Q) (s : State) (i : nat) (b' : Blob) :
  blobs (animate sqrt currentTime s) !! i = Some b' ->
  cx (el b') = Some (x (pos b')) /\ cy (el b') = Some (y (pos b')) /\
  (isActive (touch s) && isTouching (touch s) = false -> r (el b') = radius b') /\
  ((forall q, 0 <= sqrt q)%Q -> (0 <= radius b')%Q ->
   (radius b' <= r (el b'))%Q /\ (r (el b') <= (13 # 10) * radius b')%Q).
Proof.
  intros Hb'. rewrite animate_blobs in Hb'.
  assert (Hlen : i < length (blobs s)).
  { apply lookup_lt_Some in Hb'. now rewrite follow_length in Hb'. }
  destruct (lookup_lt_is_Some_2 _ _ Hlen) as [b Hb].
  destruct (follow_lookup (config s)
              (deltaTime currentTime (lastTime (animation s)))
              (isActive (touch s) && isTouching (touch s)) (velocity (position s))
              (blobs s) 0 (mouse (position (animate sqrt currentTime s))) i b Hb)
    as (b2 & leader & Hl & _ & _ & Hr & _ & _ & Hcx & Hcy & Hrr).
  rewrite Hl in Hb'. injection Hb' as ->.
  split; [exact Hcx|]. split; [exact Hcy|]. rewrite Hrr, Hr. split.
  - intros ->. reflexivity.
  - intros Hs Hrad. destruct (isActive (touch s) && isTouching (touch s)).
    + set (sp := sqrt (x (velocity (position s)) ^ 2 + y (velocity (position s)) ^ 2)).
      assert (H0 : (0 <= Qmin (sp * (2 # 1000)) (3 # 10))%Q).
      { apply Q.min_glb; [|discriminate]. apply Qmult_le_0_compat; [apply Hs|discriminate]. }
      assert (H1 : (Qmin (sp * (2 # 1000)) (3 # 10) <= 3 # 10)%Q) by apply Q.le_min_r.
      set (m := Qmin (sp * (2 # 1000)) (3 # 10)) in *.
      assert (P0 : (0 <= radius b * m)%Q) by (apply Qmult_le_0_compat; assumption).
      assert (P1 : (m * radius b <= (3 # 10) * radius b)%Q)
        by (apply Qmult_le_compat_r; assumption).
      setoid_replace (radius b * (1 + m))%Q with (radius b + radius b * m)%Q
        using relation Qeq by ring.
      assert (E : (m * radius b == radius b * m)%Q) by ring.
      rewrite E in P1. split; lra.
    + split; lra.
Qed.
End Chain.

Section Overshoot.
Variable sqrt : Q -> Q.

(** X18: on the desktop settings no blob ever passes its leader: every step
    factor lag * deltaTime lies in [0, 1].  On the touch settings a frame that
    comes 33.34 ms or more after the one before gives the trailing blobs the
    factor 0.7 * 2 = 1.4: each of them lands beyond its leader, at 2/5 of its
    former distance on the other side. *)
Theorem trailing_blobs_overshoot_on_touch
    (currentTime : Q) (s : State) (i : nat) (b : Blob) :
  (lastTime (animation s) <= currentTime)%Q ->
  let dt := deltaTime currentTime (lastTime (animation s)) in
  let s' := animate sqrt currentTime s in
  (isTouch s = false ->
   forall j, (0 <= lagAt (config s) j * dt)%Q /\ (lagAt (config s) j * dt <= 1)%Q) /\
  (isTouch s = true ->
   (lastTime (animation s) + 2 * frameInterval <= currentTime)%Q ->
   blobs s !! (S i) = Some b ->
   exists b' leader,
     blobs s' !! (S i) = Some b' /\ pos <$> (blobs s' !! i) = Some leader /\
     (x leader - x (pos b') == - (2 # 5) * (x leader - x (pos b)))%Q /\
     (y leader - y (pos b') == - (2 # 5) * (y leader - y (pos b)))%Q).
Proof.
  intros Hclock. cbv zeta. destruct (deltaTime_range _ _ Hclock) as [D0 D2]. split.
  - intros Hd j. unfold config. rewrite Hd.
    set (dt := deltaTime currentTime (lastTime (animation s))) in *.
    destruct j as [|j]; cbn [lagAt desktop lagPrimary lagSecondary]; split; lra.
  - intros Ht Hgap Hb.
    destruct (follow_lookup sqrt (config s)
                (deltaTime currentTime (lastTime (animation s)))
                (isActive (touch s) && isTouching (touch s)) (velocity (position s))
                (blobs s) 0 (mouse (position (animate sqrt currentTime s))) (S i) b Hb)
      as (b' & leader & Hl & Hlead & Hp & _).
    rewrite <- animate_blobs in Hl, Hlead.
    exists b', leader. split; [exact Hl|]. split; [exact Hlead|].
    assert (Hx : (x leader - x (pos b')
                  == (x leader - x (pos b))
                     * (1 - lagAt (config s) (S i)
                            * deltaTime currentTime (lastTime (animation s))))%Q)
      by (rewrite Hp; apply approach_offset).
    assert (Hy : (y leader - y (pos b')
                  == (y leader - y (pos b))
                     * (1 - lagAt (config s) (S i)
                            * deltaTime currentTime (lastTime (animation s))))%Q)
      by (rewrite Hp; apply approach_offset).
    assert (Hdt : (deltaTime currentTime (lastTime (animation s)) == 2)%Q).
    { unfold deltaTime, maxDelta. apply Q.min_r.
      unfold frameInterval in *. apply Qle_shift_div_l; [reflexivity|lra]. }
    rewrite Hx, Hy, Hdt. unfold config. rewrite Ht.
    cbn [lagAt mobile lagSecondary]. split; ring.
Qed.
End Overshoot.

Lemma trailing_blobs_overshoot_on_touch_witness :
  exists b b' leader,
    blobs dragged !! 1 = Some b /\
    blobs (animate sqrtFloor (3 * frameInterval) dragged) !! 1 = Some b' /\
    pos <$> (blobs (animate sqrtFloor (3 * frameInterval) dragged) !! 0) = Some leader /\
    (x leader - x (pos b') == - (2 # 5) * (x leader - x (pos b)))%Q /\
    x (pos b) = 40%Q /\ (x leader == 140)%Q /\ (x (pos b') == 180)%Q.
Proof.
  assert (E : exists b, blobs dragged !! 1 = Some b /\ x (pos b) = 40%Q)
    by (vm_compute; eexists; split; reflexivity).
  destruct E as (b & E & Hb0). exists b.
  destruct (trailing_blobs_overshoot_on_touch sqrtFloor (3 * frameInterval) dragged 0 b)
    as [_ H].
  - vm_compute. discriminate.
  - destruct H as (b' & leader & Hb & Hl & Hx & _).
    + vm_compute. reflexivity.
    + vm_compute. discriminate.
    + exact E.
    + assert (Hlead : (x leader == 140)%Q).
      { vm_compute in Hl. injection Hl as <-. vm_compute. reflexivity. }
      exists b', leader. repeat (split; [assumption|]).
      rewrite Hb0, Hlead in Hx. lra.
Defined.

(** *** Touch release, timers, visibility *)

Lemma setBlobOpacity_all (o : Q) (bs : list Blob) :
  Forall (fun b => opacity (el b) = Some o) (setBlobOpacity o bs).
Proof. unfold setBlobOpacity. rewrite Forall_map. now apply Forall_forall. Qed.

Section Release.
Variable sqrt : Q -> Q.

(** X19: lifting the finger leaves the blob as it is and starts the fade-out
    timer.  If the timer fires, the cursor becomes inactive and every circle
    transparent.  If a new touch starts first, the timer is cleared, and its
    time-out, should the browser still deliver it, changes nothing.  A
    touchmove that arrives after the release is ignored. *)
Theorem release_fades_unless_retouched
    (s : State) (t : Point) (ts stray : list Point) (w hh : Q) :
  let h := nextHandle (browser s) in
  let s1 := handleTouchEnd s in
  isTouching (touch s1) = false /\ isActive (touch s1) = isActive (touch s) /\
  blobs s1 = blobs s /\ position s1 = position s /\
  fadeOutTimer (touch s1) = Some h /\ timers (browser s1) !! h = Some FadeOut /\
  (let s2 := handle sqrt (EvTimeout h w hh) s1 in
   isActive (touch s2) = false /\
   Forall (fun b => opacity (el b) = Some 0%Q) (blobs s2) /\
   timers (browser s2) !! h = None) /\
  (let s3 := handleTouchStart (t :: ts) s1 in
   timers (browser s3) !! h = None /\ isActive (touch s3) = true /\
   handle sqrt (EvTimeout h w hh) s3 = s3) /\
  handleTouchMove stray s1 = s1.
Proof.
  cbv zeta. unfold handleTouchEnd. cbn [setTimeout].
  repeat (split; [reflexivity|]).
  split; [cbn; apply lookup_insert_eq|].
  split; [|split].
  - cbn. rewrite lookup_insert_eq. cbn. split; [reflexivity|].
    split; [apply setBlobOpacity_all | apply lookup_delete_eq].
  - cbn. rewrite lookup_delete_eq. repeat split.
  - reflexivity.
Qed.

(** X20: a fade-out timer can outlive its release.  After two touchend
    events in a row (two fingers lifting, or touchend and touchcancel) the
    handle of the first timer is overwritten; a new touch clears the second
    timer only, and when the first fires the cursor is made inactive and
    transparent in the middle of the touch.  The next touchmove makes it
    active and opaque again. *)
Theorem overwritten_fade_timer_hides_during_touch
    (s : State) (t t' : Point) (ts ts' : list Point) (w hh : Q) :
  let h1 := nextHandle (browser s) in
  let s3 := handleTouchStart (t :: ts) (handleTouchEnd (handleTouchEnd s)) in
  let s4 := handle sqrt (EvTimeout h1 w hh) s3 in
  let s5 := handleTouchMove (t' :: ts') s4 in
  timers (browser s3) !! h1 = Some FadeOut /\
  isTouching (touch s4) = true /\ isActive (touch s4) = false /\
  Forall (fun b => opacity (el b) = Some 0%Q) (blobs s4) /\
  isActive (touch s5) = true /\
  Forall (fun b => opacity (el b) = Some 1%Q) (blobs s5) /\
  target (position s5) = t'.
Proof.
  cbv zeta. unfold handleTouchEnd. cbn [setTimeout].
  assert (Hne : Pos.succ (nextHandle (browser s)) <> nextHandle (browser s)) by lia.
  assert (E : timers (browser (handleTouchStart (t :: ts)
                (handleTouchEnd (handleTouchEnd s)))) !! nextHandle (browser s)
              = Some FadeOut).
  { cbn. rewrite lookup_delete_ne by exact Hne.
    rewrite lookup_insert_ne by exact Hne. apply lookup_insert_eq. }
  unfold handleTouchEnd in E. cbn [setTimeout] in E.
  split; [exact E|]. cbn [handle]. rewrite E. cbn.
  split; [reflexivity|]. split; [reflexivity|].
  split; [apply setBlobOpacity_all|]. split; [reflexivity|].
  split; [apply setBlobOpacity_all | reflexivity].
Qed.

(** X21: there is one animation loop at most: in every reachable state at
    most one frame callback is pending, and it is the one [rafId] names. *)
Theorem at_most_one_frame_pending (s : State) :
  reachable sqrt s ->
  base.size (frames (browser s)) <= 1 /\
  forall h, h ∈ frames (browser s) -> rafId (animation s) = Some h.
Proof.
  intros Hr. pose proof (reachable_framesTracked sqrt s Hr) as Ht.
  split; [|exact Ht].
  destruct (rafId (animation s)) as [h|] eqn:E.
  - assert (Hsub : frames (browser s) ⊆ {[h]}).
    { intros i Hi. apply Ht in Hi. rewrite E in Hi. set_solver. }
    apply subseteq_size in Hsub. rewrite size_singleton in Hsub. exact Hsub.
  - rewrite (framesTracked_none s Ht E), size_empty. lia.
Qed.

Lemma hidden_then_shown (s : State) (t t' now now' : Q) :
  reachable sqrt s ->
  let s1 := handleVisibilityChange sqrt true t t' s in
  let s2 := handleVisibilityChange sqrt false now now' s1 in
  frames (browser s1) = ∅ /\ rafId (animation s1) = None /\
  position s1 = position s /\ blobs s1 = blobs s /\ config s1 = config s /\
  s2 = animate sqrt now' (withAnimation {| rafId := None; lastTime := now |} s1) /\
  frames (browser s2) = {[nextHandle (browser s1)]} /\
  rafId (animation s2) = Some (nextHandle (browser s1)).
Proof.
  intros Hr. pose proof (reachable_framesTracked sqrt s Hr) as Ht. cbv zeta.
  assert (H1 : frames (browser (handleVisibilityChange sqrt true t t' s)) = ∅ /\
               rafId (animation (handleVisibilityChange sqrt true t t' s)) = None /\
               position (handleVisibilityChange sqrt true t t' s) = position s /\
               blobs (handleVisibilityChange sqrt true t t' s) = blobs s /\
               config (handleVisibilityChange sqrt true t t' s) = config s).
  { unfold handleVisibilityChange. destruct (rafId (animation s)) as [h|] eqn:E.
    - split; [apply (framesTracked_without s h Ht E)|]. repeat split.
    - split; [apply (framesTracked_none s Ht E)|]. split; [exact E|]. repeat split. }
  destruct H1 as (F1 & R1 & P1 & B1 & C1).
  remember (handleVisibilityChange sqrt true t t' s) as s1 eqn:Es1. clear Es1.
  repeat (split; [assumption|]).
  unfold handleVisibilityChange. rewrite R1. split; [reflexivity|].
  split; [|reflexivity].
  unfold animate. cbn. rewrite F1. apply leibniz_equiv. set_solver.
Qed.

(** X22: hiding the tab stops the loop and showing it starts one loop again.
    While hidden no frame is pending and nothing moves; on return one frame
    is pending, and the first step is scaled by the time between the two
    clock readings of the resume, not by the time spent hidden. *)
Theorem visibility_pauses_and_resumes (s : State) (t t' now now' : Q) :
  reachable sqrt s ->
  let s1 := handleVisibilityChange sqrt true t t' s in
  let s2 := handleVisibilityChange sqrt false now now' s1 in
  frames (browser s1) = ∅ /\ rafId (animation s1) = None /\
  position s1 = position s /\ blobs s1 = blobs s /\
  frames (browser s2) = {[nextHandle (browser s1)]} /\
  rafId (animation s2) = Some (nextHandle (browser s1)) /\
  lastTime (animation s2) = now' /\
  x (mouse (position s2))
  = (x (mouse (position s))
     + (x (target (position s)) - x (mouse (position s)))
       * lagPrimary (config s) * deltaTime now' now)%Q.
Proof.
  intros Hr. cbv zeta.
  destruct (hidden_then_shown s t t' now now' Hr)
    as (F1 & R1 & P1 & B1 & C1 & E2 & F2 & R2).
  repeat (split; [assumption|]).
  rewrite E2. split; [reflexivity|].
  rewrite animate_mouse. cbv zeta.
  replace (config (withAnimation {| rafId := None; lastTime := now |}
                     (handleVisibilityChange sqrt true t t' s)))
    with (config s) by (rewrite <- C1; reflexivity).
  replace (position (withAnimation {| rafId := None; lastTime := now |}
                       (handleVisibilityChange sqrt true t t' s)))
    with (position s) by (rewrite <- P1; reflexivity).
  reflexivity.
Qed.
End Release.

Lemma reachable_threeMoves : reachable sqrtFloor threeMoves.
Proof.
  unfold threeMoves, desktopCursor. repeat apply reach_step. apply reach_create.
Qed.

Lemma reachable_twoLifts : reachable sqrtFloor twoLifts.
Proof.
  unfold twoLifts, phoneCursor. repeat apply reach_step. apply reach_create.
Qed.

Lemma at_most_one_frame_pending_witness :
  base.size (frames (browser twoLifts)) <= 1.
Proof. apply (at_most_one_frame_pending sqrtFloor twoLifts), reachable_twoLifts. Defined.

Lemma visibility_pauses_and_resumes_witness :
  frames (browser (handleVisibilityChange sqrtFloor true 100 100 threeMoves)) = ∅ /\
  rafId (animation (handleVisibilityChange sqrtFloor true 100 100 threeMoves)) = None.
Proof.
  destruct (visibility_pauses_and_resumes sqrtFloor threeMoves 100 100 9000 9001
              reachable_threeMoves) as (A & B & _).
  split; assumption.
Defined.

Section AfterDestroy.
Variable sqrt : Q -> Q.

(** X23: [destroy] leaves the visibility listener bound.  When the tab is
    hidden and shown again after a [destroy], the handler starts the loop
    again on the destroyed cursor: a frame is pending once more, for a
    cursor without blobs. *)
Theorem visibility_restarts_destroyed_cursor (s : State) (t t' now now' : Q) :
  reachable sqrt s ->
  let d := destroy s in
  let s' := handleVisibilityChange sqrt false now now'
              (handleVisibilityChange sqrt true t t' d) in
  frames (browser d) = ∅ /\
  blobs s' = [] /\
  exists h, frames (browser s') = {[h]} /\ rafId (animation s') = Some h.
Proof.
  intros Hr. cbv zeta.
  assert (Hd : reachable sqrt (destroy s)) by apply (reach_step sqrt s EvDestroy Hr).
  pose proof (reachable_framesTracked sqrt _ Hr) as Ht.
  destruct (hidden_then_shown sqrt (destroy s) t t' now now' Hd)
    as (_ & _ & _ & Hb & _ & _ & Hf & Hraf).
  split; [|split].
  - unfold destroy. cbn [browser frames].
    rewrite !whenSet_clearTimeout_frames.
    destruct (rafId (animation s)) as [h|] eqn:E; cbn.
    + now apply framesTracked_without.
    + now apply framesTracked_none.
  - unfold handleVisibilityChange at 1.
    destruct (rafId (animation (handleVisibilityChange sqrt true t t' (destroy s))));
      [exact Hb|].
    rewrite animate_blobs. cbn [blobs withAnimation]. rewrite Hb. reflexivity.
  - eexists. split; [exact Hf | exact Hraf].
Qed.

(** X24: an orientation change re-centres the resting point 100 ms later:
    when its time-out fires, [mouse] and [target] are the middle of the
    window as it is then; the blobs, the velocity and [lastPosition] are not
    touched, so the blobs glide to the new centre over the next frames. *)
Theorem orientation_change_recentres (s : State) (w hh : Q) :
  let h := nextHandle (browser s) in
  let s' := handle sqrt (EvTimeout h w hh) (handleOrientationChange s) in
  mouse (position s') = {| x := w / 2; y := hh / 2 |} /\
  target (position s') = {| x := w / 2; y := hh / 2 |} /\
  velocity (position s') = velocity (position s) /\
  lastPosition (position s') = lastPosition (position s) /\
  blobs s' = blobs s /\ touch s' = touch s /\
  timers (browser s') !! h = None.
Proof.
  cbv zeta. unfold handleOrientationChange. cbn [handle setTimeout snd withBrowser
    browser timers]. rewrite lookup_insert_eq. cbn.
  repeat split. apply lookup_delete_eq.
Qed.
End AfterDestroy.

Lemma visibility_restarts_destroyed_cursor_witness :
  exists h,
    frames (browser (handleVisibilityChange sqrtFloor false 9000 9001
                       (handleVisibilityChange sqrtFloor true 100 100
                          (destroy threeMoves)))) = {[h]}.
Proof.
  destruct (visibility_restarts_destroyed_cursor sqrtFloor threeMoves 100 100 9000 9001
              reachable_threeMoves) as (_ & _ & h & Hf & _).
  exists h. exact Hf.
Defined.

Section Manual.
Variable sqrt : Q -> Q.

(** X25: [showAt] puts the primary point and the target on the given point
    and makes the cursor active and opaque, but unlike a touch it moves no
    blob (they glide there) and clears no timer: a fade-out that was pending
    still fires and hides the cursor again.  [hide] makes it inactive. *)
Theorem showAt_keeps_blobs_and_pending_fade
    (s : State) (p : Point) (h : positive) (w hh : Q) :
  let s1 := showAt p s in
  getPosition s1 = p /\ target (position s1) = p /\ getIsActive s1 = true /\
  getBlobPositions s1 = getBlobPositions s /\
  Forall (fun b => opacity (el b) = Some 1%Q) (blobs s1) /\
  timers (browser s1) = timers (browser s) /\
  getIsActive (hide s1) = false /\
  (timers (browser s) !! h = Some FadeOut ->
   getIsActive (handle sqrt (EvTimeout h w hh) s1) = false /\
   Forall (fun b => opacity (el b) = Some 0%Q)
     (blobs (handle sqrt (EvTimeout h w hh) s1))).
Proof.
  cbv zeta. unfold getPosition, getIsActive, getBlobPositions. cbn [showAt withBlobs
    withTouch withPosition position mouse target touch isActive blobs browser x y].
  rewrite !point_eta. split; [reflexivity|]. split; [reflexivity|].
  split; [reflexivity|]. split.
  { unfold setBlobOpacity. rewrite map_map. reflexivity. }
  split; [apply setBlobOpacity_all|]. split; [reflexivity|]. split; [reflexivity|].
  intros Hh. cbn. rewrite Hh. cbn. split; [reflexivity | apply setBlobOpacity_all].
Qed.
End Manual.

Lemma showAt_keeps_blobs_and_pending_fade_witness :
  getIsActive (handle sqrtFloor (EvTimeout 2 390 844)
                 (showAt {| x := 10; y := 20 |} tapped)) = false.
Proof.
  destruct (showAt_keeps_blobs_and_pending_fade sqrtFloor tapped
              {| x := 10; y := 20 |} 2 390 844) as (_ & _ & _ & _ & _ & _ & _ & H).
  apply H. vm_compute. reflexivity.
Defined.

Lemma chain_follows_leader_witness :
  exists b b' leader,
    blobs threeMoves !! 1 = Some b /\
    blobs (animate sqrtFloor (2 * frameInterval) threeMoves) !! 1 = Some b' /\
    pos <$> (blobs (animate sqrtFloor (2 * frameInterval) threeMoves) !! 0)
    = Some leader /\
    radius b' = radius b.
Proof.
  assert (E : exists b, blobs threeMoves !! 1 = Some b)
    by (vm_compute; eexists; reflexivity).
  destruct E as [b E]. exists b.
  destruct (chain_follows_leader sqrtFloor (2 * frameInterval) threeMoves 1 b E)
    as (_ & b' & leader & Hb & Hl & Hr & _).
  exists b', leader. repeat split; assumption.
Defined.

Lemma circles_drawn_on_blobs_witness :
  exists b',
    blobs (animate sqrtFloor (2 * frameInterval) threeMoves) !! 1 = Some b' /\
    cx (el b') = Some (x (pos b')) /\ cy (el b') = Some (y (pos b')) /\
    r (el b') = radius b'.
Proof.
  assert (E : exists b', blobs (animate sqrtFloor (2 * frameInterval) threeMoves) !! 1
                         = Some b')
    by (vm_compute; eexists; reflexivity).
  destruct E as [b' E]. exists b'.
  destruct (circles_drawn_on_blobs sqrtFloor (2 * frameInterval) threeMoves 1 b' E)
    as (Hx & Hy & Hr & _).
  split; [exact E|]. split; [exact Hx|]. split; [exact Hy|].
  apply Hr. vm_compute. reflexivity.
Defined.

End BlobCursorFacts.

(** ** The loader scene *)

Module LoaderSceneFacts.
Import LoaderScene.

Lemma release_twice o g : release o (release o g) = release o g.
Proof. destruct o; simpl; [apply leibniz_equiv; set_solver | reflexivity]. Qed.

Lemma scene_inv_init c : Inv (initLoaderScene (loaded c)).
Proof.
  destruct c; split; simpl; try set_solver; try lia; try tauto; try discriminate.
Qed.

Lemma scene_inv_animate s :
  Inv s -> frames (browser s) = ∅ -> loads (browser s) = 0 ->
  Inv (stateOf (animate s)).
Proof.
  intros [Hf Hl Hld Hlive Hatt] He H0.
  assert (Hheld : held (stateOf (animate s)) = held s).
  { unfold animate, held.
    destruct (renderer s), (material s) as [m|]; reflexivity. }
  split; try rewrite Hheld;
    unfold animate; destruct (renderer s) as [rd|] eqn:Er; simpl;
    try exact Hatt; try (rewrite <- Er; exact Hatt); try exact Hlive; try lia;
    try (intros Hn; congruence);
    intros h; rewrite He; intros Hh; f_equal; set_solver.
Qed.

Lemma scene_inv_withoutFrame s h :
  Inv s -> h ∈ frames (browser s) ->
  Inv (withoutFrame h s) /\ frames (browser (withoutFrame h s)) = ∅ /\
  loads (browser (withoutFrame h s)) = 0.
Proof.
  intros [Hf Hl Hld Hlive Hatt] Hin.
  assert (He : frames (browser s) ∖ {[h]} = ∅).
  { apply leibniz_equiv. intros i. split; [|set_solver].
    intros Hi. apply elem_of_difference in Hi as [Hi Hne].
    pose proof (Hf _ Hi) as E1. pose proof (Hf _ Hin) as E2. set_solver. }
  assert (H0 : loads (browser s) = 0).
  { destruct (loads (browser s)) eqn:E; [reflexivity|].
    destruct Hld as (Hempty & _); [lia|]. set_solver. }
  split; [|split; [exact He | exact H0]].
  split; simpl; try assumption.
  - rewrite He. set_solver.
  - intros Hn. contradiction.
Qed.

Lemma scene_inv_onLoad s :
  Inv s -> loads (browser s) <> 0 -> Inv (stateOf (onLoad s)).
Proof.
  intros Hs Hn. pose proof Hs as [Hf Hl Hld Hlive Hatt].
  destruct (Hld Hn) as (He & Hm & Hms).
  assert (Hs1 : forall sc,
    Inv {| container := container s; scene := sc; camera := camera s;
           renderer := renderer s;
           material := Some {| materialId := Pos.succ (nextHandle (browser s));
                               tDiffuse := Some (nextHandle (browser s));
                               time := 0 |};
           mesh := Some {| geometry := Pos.succ (Pos.succ (nextHandle (browser s))) |};
           animationId := animationId s;
           browser := {| frames := frames (browser s);
                         loads := pred (loads (browser s));
                         resizeBound := resizeBound (browser s);
                         children := children (browser s);
                         live := {[nextHandle (browser s);
                                   Pos.succ (nextHandle (browser s));
                                   Pos.succ (Pos.succ (nextHandle (browser s)))]}
                                 ∪ live (browser s);
                         contextLost := contextLost (browser s);
                         nextHandle := Pos.succ (Pos.succ (Pos.succ
                                         (nextHandle (browser s)))) |} |}).
  { intros sc. split; simpl; try assumption.
    - lia.
    - intros Hp. lia.
    - revert Hlive. unfold held. simpl. rewrite Hm, Hms.
      destruct (renderer s); set_solver. }
  unfold onLoad. destruct (scene s) as [ms|]; [|apply Hs1].
  apply scene_inv_animate; [apply Hs1 | exact He | simpl; lia].
Qed.

Lemma dispose_done s :
  Inv s -> exists s', disposeLoaderScene s = Done s'.
Proof.
  intros [_ _ _ _ Hatt]. unfold disposeLoaderScene.
  destruct (container s), (renderer s) as [rd|]; try (eexists; reflexivity).
  destruct (decide (domElement rd ∈ children (browser s))) as [|Hn];
    [eexists; reflexivity|].
  exfalso. apply Hn. now apply Hatt.
Qed.

(** What a successful dispose leaves behind. *)
Lemma dispose_clears s s' :
  disposeLoaderScene s = Done s' ->
  scene s' = None /\ camera s' = false /\ renderer s' = None /\
  material s' = None /\ mesh s' = None /\
  animationId s' = animationId s /\
  resizeBound (browser s') = false /\
  frames (browser s') = release (animationId s) (frames (browser s)) /\
  live (browser s') = live (browser s) ∖ held s /\
  loads (browser s') = loads (browser s) /\
  (forall rd, container s = true -> renderer s = Some rd ->
              domElement rd ∉ children (browser s')).
Proof.
  unfold disposeLoaderScene.
  destruct (container s) eqn:Ec, (renderer s) as [rd|] eqn:Er;
    try destruct (decide (domElement rd ∈ children (browser s)));
    try discriminate; intros [= <-]; simpl;
    repeat (split; [reflexivity|]);
    (split;
     [ unfold held; rewrite ?Er;
       destruct (material s) as [m|]; [destruct (tDiffuse m)|];
       destruct (mesh s); simpl; apply leibniz_equiv; set_solver
     | split; [reflexivity|] ]);
    intros rd0 Hc Hrd; try discriminate;
    injection Hrd as <-; intros Hin;
    apply list_elem_of_filter in Hin as [Hne _]; congruence.
Qed.

Lemma dispose_twice s s' :
  disposeLoaderScene s = Done s' -> disposeLoaderScene s' = Done s'.
Proof.
  intros H. destruct (dispose_clears s s' H)
    as (Hsc & Hc & Hr & Hm & Hms & Hid & Hb & Hfr & _).
  destruct s' as [c sc cam r m ms aid [fr ld rb ch lv cl nh]]. simpl in *.
  subst. unfold disposeLoaderScene. simpl.
  destruct c; simpl; rewrite release_twice; reflexivity.
Qed.

Lemma scene_inv_dispose s : Inv s -> Inv (stateOf (disposeLoaderScene s)).
Proof.
  intros Hs. destruct (dispose_done s Hs) as [s' E]. rewrite E. simpl.
  destruct (dispose_clears s s' E)
    as (Hsc & Hc & Hr & Hm & Hms & Hid & Hb & Hfr & Hlv & Hld & _).
  destruct Hs as [Hf Hl Hlding Hlive Hatt].
  split.
  - intros h. rewrite Hfr, Hid. intros Hh. apply Hf.
    destruct (animationId s); simpl in Hh; set_solver.
  - now rewrite Hld.
  - rewrite Hld. intros Hn. destruct (Hlding Hn) as (He & _).
    rewrite Hfr, He. repeat split; try assumption.
    destruct (animationId s); simpl; set_solver.
  - rewrite Hlv. set_solver.
  - intros rd. rewrite Hr. discriminate.
Qed.

Lemma scene_inv_handle ev s : Inv s -> Inv (stateOf (handle ev s)).
Proof.
  intros Hs. destruct ev; simpl.
  - destruct (loads (browser s)) eqn:E; [exact Hs|].
    apply scene_inv_onLoad; [exact Hs | lia].
  - destruct (decide (h ∈ frames (browser s))) as [Hin|]; [|exact Hs].
    destruct (scene_inv_withoutFrame s h Hs Hin) as (H1 & H2 & H3).
    now apply scene_inv_animate.
  - destruct (resizeBound (browser s)); exact Hs.
  - now apply scene_inv_dispose.
Qed.

Lemma scene_reachable_inv s : reachable s -> Inv s.
Proof.
  induction 1 as [c | s ev _ IH]; [apply scene_inv_init | now apply scene_inv_handle].
Qed.

Lemma reachable_running : reachable running.
Proof. unfold running. repeat apply reach_step. apply reach_init. Qed.

(** After a dispose of a reachable scene nothing is pending and nothing is
    live. *)
Lemma dispose_leaves_nothing s s' :
  Inv s -> disposeLoaderScene s = Done s' ->
  frames (browser s') = ∅ /\ live (browser s') = ∅.
Proof.
  intros [Hf _ _ Hlive _] E.
  destruct (dispose_clears s s' E) as (_ & _ & _ & _ & _ & _ & _ & Hfr & Hlv & _).
  rewrite Hfr, Hlv. split; [|set_solver].
  apply leibniz_equiv. intros i. split; [|set_solver]. intros Hi.
  destruct (animationId s) as [h|] eqn:Eh; simpl in Hi.
  - apply elem_of_difference in Hi as [Hi Hne]. apply Hf in Hi. set_solver.
  - apply Hf in Hi. discriminate.
Qed.

(** *** Further facts of the loader scene *)

Lemma handle_container ev s : container (stateOf (handle ev s)) = container s.
Proof.
  destruct ev; simpl.
  - destruct (loads (browser s)); [reflexivity|]. unfold onLoad.
    destruct (scene s); [|reflexivity]. unfold animate. simpl.
    now destruct (renderer s).
  - destruct (decide _); [|reflexivity]. unfold animate. simpl.
    now destruct (renderer s).
  - now destruct (resizeBound (browser s)).
  - unfold disposeLoaderScene.
    destruct (container s), (renderer s) as [rd|]; try reflexivity.
    now destruct (decide _).
Qed.

(** X26: without the container element the loader stays inert:
    [initLoaderScene] returns at its guard, and whatever is delivered or
    called afterwards, every variable stays unset, nothing is attached,
    bound, scheduled or allocated. *)
Theorem loader_without_container_is_inert (s : State) :
  reachable s -> container s = false -> s = loaded false.
Proof.
  induction 1 as [c | s ev Hr IH]; intros Hc.
  - destruct c; [discriminate|reflexivity].
  - rewrite handle_container in Hc. rewrite (IH Hc).
    destruct ev; reflexivity.
Qed.

Lemma loader_without_container_is_inert_witness :
  stateOf (handle EvDispose
    (stateOf (handle EvLoaded (initLoaderScene (loaded false)))))
  = loaded false.
Proof.
  apply loader_without_container_is_inert.
  - repeat apply reach_step. apply reach_init.
  - vm_compute. reflexivity.
Defined.

(** The loop runs only while renderer and material exist. *)
Lemma scene_running s :
  reachable s ->
  (renderer s = None -> scene s = None) /\
  (renderer s = None -> frames (browser s) = ∅) /\
  (material s = None -> frames (browser s) = ∅).
Proof.
  induction 1 as [c | s ev Hr (I2 & I3 & I4)].
  - destruct c; simpl; repeat split; try discriminate; reflexivity.
  - pose proof (scene_reachable_inv s Hr) as Hinv.
    destruct ev; simpl.
    + destruct (loads (browser s)); [tauto|]. unfold onLoad.
      destruct (scene s) as [ms|] eqn:Es.
      * destruct (renderer s) as [rd|] eqn:Er; [|specialize (I2 eq_refl); discriminate].
        unfold animate. simpl. repeat split; discriminate.
      * simpl. repeat split; try assumption; discriminate.
    + destruct (decide _) as [Hin|]; [|tauto].
      destruct (renderer s) as [rd|] eqn:Er; [|rewrite I3 in Hin by reflexivity; set_solver].
      destruct (material s) as [m|] eqn:Em; [|rewrite I4 in Hin by reflexivity; set_solver].
      unfold animate. simpl. rewrite ?Er, ?Em. simpl.
      repeat split; discriminate.
    + destruct (resizeBound (browser s)); tauto.
    + destruct (dispose_done s Hinv) as [s' E]. rewrite E. simpl.
      destruct (dispose_clears s s' E) as (Hsc & _ & _ & _ & _ & _ & _ & _).
      destruct (dispose_leaves_nothing s s' Hinv E) as [Hf _]. tauto.
Qed.

(** X27: a frame of a reachable scene never throws: whenever a frame
    callback is pending, the renderer and the material exist; the frame adds
    0.005 to the time uniform, keeps the texture, and leaves exactly the
    next frame pending. *)
Theorem loader_frame_advances_time (s : State) (h : positive) :
  reachable s ->
  h ∈ frames (browser s) ->
  exists s' m m',
    handle (EvFrame h) s = Done s' /\
    material s = Some m /\ material s' = Some m' /\
    time m' = (time m + timeIncrement)%Q /\ tDiffuse m' = tDiffuse m /\
    frames (browser s') = {[nextHandle (browser s)]} /\
    animationId s' = Some (nextHandle (browser s)).
Proof.
  intros Hr Hin. destruct (scene_running s Hr) as (_ & I3 & I4).
  pose proof (scene_reachable_inv s Hr) as Hinv.
  destruct (scene_inv_withoutFrame s h Hinv Hin) as (_ & He & _).
  destruct (renderer s) as [rd|] eqn:Er; [|rewrite I3 in Hin by reflexivity; set_solver].
  destruct (material s) as [m|] eqn:Em; [|rewrite I4 in Hin by reflexivity; set_solver].
  simpl. destruct (decide _) as [_|Hn]; [|contradiction].
  unfold animate. simpl. rewrite ?Er, ?Em.
  eexists _, m, _. split; [reflexivity|]. split; [reflexivity|].
  split; [reflexivity|]. simpl. repeat (split; [reflexivity|]).
  split; [|reflexivity]. simpl in He. rewrite He. apply leibniz_equiv. set_solver.
Qed.

Lemma loader_frame_advances_time_witness :
  exists s' m m',
    handle (EvFrame 8) running = Done s' /\
    material running = Some m /\ material s' = Some m' /\
    time m' = (time m + timeIncrement)%Q.
Proof.
  destruct (loader_frame_advances_time running 8 reachable_running)
    as (s' & m & m' & A & B & C & D & _).
  - vm_compute. reflexivity.
  - exists s', m, m'. repeat split; assumption.
Defined.

Lemma reachable_loading : reachable loading.
Proof. apply reach_init. Qed.

(** X28: dispose while the texture is still loading.  The dispose returns
    and leaves nothing live, but the load is not cancelled: when the texture
    arrives, [onLoad] builds the material and the mesh and then throws a
    TypeError at [scene.add], since the scene is null.  No frame is
    scheduled; the texture, the material and the geometry stay live until
    [disposeLoaderScene] is called once more. *)
Theorem dispose_while_loading_leaks_late_texture (s : State) :
  reachable s ->
  loads (browser s) <> 0 ->
  exists s1 s2 s3,
    disposeLoaderScene s = Done s1 /\ live (browser s1) = ∅ /\
    handle EvLoaded s1 = Raised TypeError s2 /\
    frames (browser s2) = ∅ /\
    live (browser s2)
    = {[nextHandle (browser s1); Pos.succ (nextHandle (browser s1));
        Pos.succ (Pos.succ (nextHandle (browser s1)))]} /\
    is_Some (material s2) /\ is_Some (mesh s2) /\
    disposeLoaderScene s2 = Done s3 /\ live (browser s3) = ∅.
Proof.
  intros Hr Hl. pose proof (scene_reachable_inv s Hr) as Hinv.
  destruct (dispose_done s Hinv) as [s1 E1].
  destruct (dispose_clears s s1 E1)
    as (Hsc & _ & _ & _ & _ & _ & _ & _ & _ & Hld & _).
  destruct (dispose_leaves_nothing s s1 Hinv E1) as [Hf1 Hlv1].
  assert (Hr1 : reachable s1).
  { pose proof (reach_step s EvDispose Hr) as H. simpl in H. now rewrite E1 in H. }
  assert (Hr2 : reachable (stateOf (handle EvLoaded s1))) by now apply reach_step.
  assert (E2 : exists s2, handle EvLoaded s1 = Raised TypeError s2 /\
                 frames (browser s2) = frames (browser s1) /\
                 live (browser s2)
                 = {[nextHandle (browser s1); Pos.succ (nextHandle (browser s1));
                     Pos.succ (Pos.succ (nextHandle (browser s1)))]}
                   ∪ live (browser s1) /\
                 is_Some (material s2) /\ is_Some (mesh s2)).
  { simpl. rewrite Hld. destruct (loads (browser s)); [contradiction|].
    unfold onLoad. rewrite Hsc. eexists. split; [reflexivity|]. simpl.
    repeat split; eauto. }
  destruct E2 as (s2 & E2 & Hf2 & Hlv2 & Hm & Hms).
  rewrite E2 in Hr2. simpl in Hr2.
  pose proof (scene_reachable_inv s2 Hr2) as Hinv2.
  destruct (dispose_done s2 Hinv2) as [s3 E3].
  destruct (dispose_leaves_nothing s2 s3 Hinv2 E3) as [_ Hlv3].
  exists s1, s2, s3. split; [exact E1|]. split; [exact Hlv1|]. split; [exact E2|].
  split; [now rewrite Hf2|]. split; [rewrite Hlv2, Hlv1; apply leibniz_equiv; set_solver|].
  repeat split; assumption.
Qed.

Lemma dispose_while_loading_leaks_late_texture_witness :
  exists s1 s2,
    disposeLoaderScene loading = Done s1 /\
    handle EvLoaded s1 = Raised TypeError s2 /\
    is_Some (material s2).
Proof.
  destruct (dispose_while_loading_leaks_late_texture loading reachable_loading)
    as (s1 & s2 & _ & E1 & _ & E2 & _ & _ & Hm & _).
  - vm_compute. discriminate.
  - exists s1, s2. repeat split; assumption.
Defined.

Lemma stopped_stays_stopped ev s :
  scene s = None -> frames (browser s) = ∅ ->
  scene (stateOf (handle ev s)) = None /\
  frames (browser (stateOf (handle ev s))) = ∅.
Proof.
  intros Hsc Hf. destruct ev; simpl.
  - destruct (loads (browser s)); [tauto|]. unfold onLoad. rewrite Hsc. simpl. tauto.
  - destruct (decide _) as [Hin|]; [|tauto]. rewrite Hf in Hin. set_solver.
  - destruct (resizeBound (browser s)); tauto.
  - unfold disposeLoaderScene.
    destruct (container s), (renderer s) as [rd|]; try destruct (decide _); simpl;
      (split; [assumption || reflexivity|]); rewrite Hf;
      destruct (animationId s); simpl; try reflexivity; apply leibniz_equiv; set_solver.
Qed.

(** X29: once disposed, the loop stays stopped: after a dispose of a
    reachable scene no frame callback is pending, and none is after any
    further events (a late texture, resizes, disposes). *)
Theorem disposed_loader_never_ticks_again (s : State) (evs : list Event) :
  reachable s ->
  frames (browser (play evs (stateOf (disposeLoaderScene s)))) = ∅ /\
  scene (play evs (stateOf (disposeLoaderScene s))) = None.
Proof.
  intros Hr. pose proof (scene_reachable_inv s Hr) as Hinv.
  destruct (dispose_done s Hinv) as [s1 E1]. rewrite E1. simpl.
  destruct (dispose_clears s s1 E1) as (Hsc & _).
  destruct (dispose_leaves_nothing s s1 Hinv E1) as [Hf _].
  clear E1 Hinv Hr. revert s1 Hsc Hf.
  induction evs as [|ev rest IH]; intros s1 Hsc Hf; simpl; [tauto|].
  destruct (stopped_stays_stopped ev s1 Hsc Hf) as [Hsc' Hf']. now apply IH.
Qed.

Lemma disposed_loader_never_ticks_again_witness :
  frames (browser (play [EvLoaded; EvFrame 7; EvResize]
                     (stateOf (disposeLoaderScene running)))) = ∅.
Proof.
  apply (disposed_loader_never_ticks_again running [EvLoaded; EvFrame 7; EvResize]),
    reachable_running.
Defined.

End LoaderSceneFacts.

(** ** Frame timing and disposal across the three effects *)

Module DriverFacts.

Lemma reachable_tapped : BlobCursor.reachable BlobCursor.sqrtFloor BlobCursor.tapped.
Proof.
  unfold BlobCursor.tapped, BlobCursor.phoneCursor.
  repeat apply BlobCursor.reach_step. apply BlobCursor.reach_create.
Qed.

(** *** C9 *)

(** What the two disposals do achieve.  [destroy] of the blob cursor and
    [disposeLoaderScene] are idempotent in every state: a second [destroy]
    changes nothing, and a second dispose after one that returned returns too
    and changes nothing.  In every reachable state the call cancels the
    pending frame (none is left), the cursor clears the timers whose handles
    it still stores, empties [blobs] and removes its circles, and the loader
    returns without error, unbinds the resize listener, detaches its canvas,
    nulls its variables and leaves none of the three.js objects that exist at
    the call live.  Timers whose handle is no longer stored and a texture
    load in flight are outside this statement; the theorem after it shows
    that they are left behind. *)
Theorem dispose_cancels_releases_idempotent
    (sqrt : Q -> Q) (c : BlobCursor.State) (l : LoaderScene.State) :
  BlobCursor.destroy (BlobCursor.destroy c) = BlobCursor.destroy c /\
  (forall l', LoaderScene.disposeLoaderScene l = Done l' ->
              LoaderScene.disposeLoaderScene l' = Done l') /\
  (BlobCursor.reachable sqrt c ->
   let c' := BlobCursor.destroy c in
   BlobCursor.frames (BlobCursor.browser c') = ∅ /\
   (forall h, BlobCursor.touchHoldTimer (BlobCursor.touch c) = Some h \/
              BlobCursor.fadeOutTimer (BlobCursor.touch c) = Some h ->
              BlobCursor.timers (BlobCursor.browser c') !! h = None) /\
   BlobCursor.blobs c' = [] /\
   (forall b, b ∈ BlobCursor.blobs c ->
              BlobCursor.node (BlobCursor.el b)
              ∉ BlobCursor.blobGroup (BlobCursor.browser c'))) /\
  (LoaderScene.reachable l ->
   exists l',
     LoaderScene.disposeLoaderScene l = Done l' /\
     LoaderScene.frames (LoaderScene.browser l') = ∅ /\
     LoaderScene.live (LoaderScene.browser l') = ∅ /\
     LoaderScene.resizeBound (LoaderScene.browser l') = false /\
     LoaderScene.scene l' = None /\ LoaderScene.renderer l' = None /\
     LoaderScene.material l' = None /\ LoaderScene.mesh l' = None /\
     (forall rd, LoaderScene.container l = true ->
                 LoaderScene.renderer l = Some rd ->
                 LoaderScene.domElement rd
                 ∉ LoaderScene.children (LoaderScene.browser l')) /\
     LoaderScene.disposeLoaderScene l' = Done l').
Proof.
  split; [apply BlobCursorFacts.destroy_idempotent|].
  split; [intros l'; apply LoaderSceneFacts.dispose_twice|].
  split.
  - intros Hc. pose proof (BlobCursorFacts.reachable_framesTracked sqrt c Hc) as Ht.
    cbv zeta. split; [|split; [|split]].
    + unfold BlobCursor.destroy. simpl.
      rewrite !BlobCursorFacts.whenSet_clearTimeout_frames.
      destruct (BlobCursor.rafId (BlobCursor.animation c)) as [h|] eqn:E; simpl.
      * now apply BlobCursorFacts.framesTracked_without.
      * now apply BlobCursorFacts.framesTracked_none.
    + apply BlobCursorFacts.destroy_timers.
    + reflexivity.
    + intros b Hb. unfold BlobCursor.destroy. simpl.
      now apply BlobCursorFacts.removeAll_gone.
  - intros Hl. pose proof (LoaderSceneFacts.scene_reachable_inv l Hl) as Hinv.
    destruct (LoaderSceneFacts.dispose_done l Hinv) as [l' E].
    destruct (LoaderSceneFacts.dispose_clears l l' E)
      as (Hsc & _ & Hr & Hm & Hms & _ & Hb & _ & _ & _ & Hdom).
    destruct (LoaderSceneFacts.dispose_leaves_nothing l l' Hinv E) as [Hfr Hlv].
    exists l'. repeat (split; [assumption|]).
    now apply (LoaderSceneFacts.dispose_twice l).
Qed.

Lemma dispose_cancels_releases_idempotent_witness :
  BlobCursor.frames (BlobCursor.browser (BlobCursor.destroy BlobCursor.tapped)) = ∅ /\
  BlobCursor.blobs (BlobCursor.destroy BlobCursor.tapped) = [] /\
  BlobCursor.destroy (BlobCursor.destroy BlobCursor.tapped)
  = BlobCursor.destroy BlobCursor.tapped /\
  exists l',
    LoaderScene.disposeLoaderScene LoaderScene.running = Done l' /\
    LoaderScene.frames (LoaderScene.browser l') = ∅ /\
    LoaderScene.live (LoaderScene.browser l') = ∅ /\
    LoaderScene.disposeLoaderScene l' = Done l'.
Proof.
  destruct (dispose_cancels_releases_idempotent BlobCursor.sqrtFloor
              BlobCursor.tapped LoaderScene.running)
    as (Hidem & _ & Hcursor & Hscene).
  destruct (Hcursor reachable_tapped) as (Hfr & _ & Hbl & _).
  destruct (Hscene LoaderSceneFacts.reachable_running)
    as (l' & E & Hf & Hlv & _ & _ & _ & _ & _ & _ & E2).
  split; [exact Hfr|]. split; [exact Hbl|]. split; [exact Hidem|].
  exists l'. repeat split; assumption.
Defined.

(** C9: disposal does not release every handle the driver owns.  On a
    phone, two fingers go down, each lift fires a touchend and the phone is
    turned; this state is reachable.  [destroy] then cancels the frame and
    clears the fade-out timer whose handle is stored (timer 3), but the
    fade-out timer of the first lift (timer 2, its handle overwritten by the
    second lift) and the recentring timer of [handleOrientationChange]
    (timer 4, its handle never stored) are still pending.  When they fire on
    the destroyed cursor, timer 4 moves [mouse] and [target] from (40, 50) to
    the middle of the turned window, (422, 195), and timer 2 clears
    [isActive].  For the loader, [disposeLoaderScene] called while the
    texture is still on its way (a reachable state) returns with nothing live
    but leaves the load pending; when the texture arrives, [onLoad] creates a
    texture, a material and a geometry, none of which is released, and then
    raises a [TypeError] on the scene that is [null]. *)
Theorem dispose_leaves_handles_behind :
  BlobCursor.reachable BlobCursor.sqrtFloor BlobCursor.liftedAndTurned /\
  (let c := BlobCursor.destroy BlobCursor.liftedAndTurned in
   BlobCursor.frames (BlobCursor.browser c) = ∅ /\
   BlobCursor.timers (BlobCursor.browser c) !! 3%positive = None /\
   BlobCursor.timers (BlobCursor.browser c) !! 2%positive = Some BlobCursor.FadeOut /\
   BlobCursor.timers (BlobCursor.browser c) !! 4%positive = Some BlobCursor.Recenter /\
   BlobCursor.mouse (BlobCursor.position c) = {| BlobCursor.x := 40; BlobCursor.y := 50 |} /\
   BlobCursor.isActive (BlobCursor.touch c) = true /\
   (let c4 := BlobCursor.handle BlobCursor.sqrtFloor (BlobCursor.EvTimeout 4 844 390) c in
    (BlobCursor.x (BlobCursor.mouse (BlobCursor.position c4)) == 422)%Q /\
    (BlobCursor.y (BlobCursor.mouse (BlobCursor.position c4)) == 195)%Q /\
    (BlobCursor.x (BlobCursor.target (BlobCursor.position c4)) == 422)%Q /\
    (BlobCursor.y (BlobCursor.target (BlobCursor.position c4)) == 195)%Q) /\
   (let c2 := BlobCursor.handle BlobCursor.sqrtFloor (BlobCursor.EvTimeout 2 844 390) c in
    BlobCursor.isActive (BlobCursor.touch c2) = false)) /\
  LoaderScene.reachable LoaderScene.loading /\
  exists l1 l2,
    LoaderScene.disposeLoaderScene LoaderScene.loading = Done l1 /\
    LoaderScene.frames (LoaderScene.browser l1) = ∅ /\
    LoaderScene.live (LoaderScene.browser l1) = ∅ /\
    LoaderScene.loads (LoaderScene.browser l1) = 1 /\
    LoaderScene.handle LoaderScene.EvLoaded l1 = Raised TypeError l2 /\
    LoaderScene.loads (LoaderScene.browser l2) = 0 /\
    LoaderScene.live (LoaderScene.browser l2) = {[ 3; 4; 5 ]}%positive.
Proof.
  split.
  { apply BlobCursor.reach_step, BlobCursorFacts.reachable_twoLifts. }
  split.
  { cbv zeta. repeat split; vm_compute; reflexivity. }
  split.
  { apply LoaderSceneFacts.reachable_loading. }
  eexists. eexists.
  split; [vm_compute; reflexivity|].
  split; [vm_compute; reflexivity|].
  split; [vm_compute; reflexivity|].
  split; [vm_compute; reflexivity|].
  split; [vm_compute; reflexivity|].
  split; vm_compute; reflexivity.
Qed.

(** *** C5 *)

Lemma deltaTime_le_max (currentTime lastTime : Q) :
  (BlobCursor.deltaTime currentTime lastTime <= 2)%Q.
Proof. unfold BlobCursor.deltaTime, BlobCursor.maxDelta. apply Q.le_min_r. Qed.

Lemma deltaTime_unclamped (currentTime lastTime : Q) :
  (currentTime - lastTime <= 2 * BlobCursor.frameInterval)%Q ->
  (BlobCursor.deltaTime currentTime lastTime
   == (currentTime - lastTime) / BlobCursor.frameInterval)%Q.
Proof.
  intros H. unfold BlobCursor.deltaTime, BlobCursor.maxDelta.
  apply Q.min_l. unfold BlobCursor.frameInterval in *.
  apply Qle_shift_div_r; [reflexivity | lra].
Qed.

(** Two frames of the background, one 16.67 ms and one 33.34 ms after the
    frame before: the normalised deltas are 1 and 2, the clock moves by 0.01
    both times, so no increment scaled by the delta gives both advances. *)
Lemma background_clock_not_scaled_by_delta :
  (BlobCursor.deltaTime BlobCursor.frameInterval 0 == 1)%Q /\
  (BlobCursor.deltaTime (2 * BlobCursor.frameInterval) 0 == 2)%Q /\
  exists b',
    Background.animate Background.settled = Done b' /\
    (Background.time b' - Background.time Background.settled
     == Background.timeStep)%Q /\
    ~ exists increment : Q,
        (Background.time b' - Background.time Background.settled
         == increment * BlobCursor.deltaTime BlobCursor.frameInterval 0)%Q /\
        (Background.time b' - Background.time Background.settled
         == increment * BlobCursor.deltaTime (2 * BlobCursor.frameInterval) 0)%Q.
Proof.
  assert (D1 : (BlobCursor.deltaTime BlobCursor.frameInterval 0 == 1)%Q)
    by (vm_compute; reflexivity).
  assert (D2 : (BlobCursor.deltaTime (2 * BlobCursor.frameInterval) 0 == 2)%Q)
    by (vm_compute; reflexivity).
  split; [exact D1|]. split; [exact D2|].
  eexists. split; [reflexivity|].
  assert (A : (Background.time
                 (stateOf (Background.animate Background.settled))
               - Background.time Background.settled == 1 # 100)%Q)
    by (vm_compute; reflexivity).
  simpl stateOf in A. split; [exact A|].
  intros (c & H1 & H2). rewrite A in H1, H2. rewrite D1 in H1. rewrite D2 in H2.
  lra.
Qed.

(** C5, amended: the tick of the blob cursor normalises the time since the
    tick before (16.67 ms counts as 1), clamps it at 2, and scales its
    smoothing step by it.  The ticks of the background and of the loader
    scene measure no elapsed time: the background adds 0.01 to its clock and
    to a running progress, the loader 0.005 to its clock, on every frame. *)
Theorem ticks_normalise_or_step_fixed
    (sqrt : Q -> Q) (currentTime : Q) (c : BlobCursor.State)
    (b : Background.State) (l : LoaderScene.State) :
  let lastTime := BlobCursor.lastTime (BlobCursor.animation c) in
  let dt := BlobCursor.deltaTime currentTime lastTime in
  let c' := BlobCursor.animate sqrt currentTime c in
  let lag := BlobCursor.lagPrimary (BlobCursor.config c) in
  (dt <= 2)%Q /\
  ((currentTime - lastTime <= 2 * BlobCursor.frameInterval)%Q ->
   (dt == (currentTime - lastTime) / BlobCursor.frameInterval)%Q) /\
  ((currentTime - lastTime == BlobCursor.frameInterval)%Q -> (dt == 1)%Q) /\
  let m := BlobCursor.mouse (BlobCursor.position c) in
  let t := BlobCursor.target (BlobCursor.position c) in
  BlobCursor.mouse (BlobCursor.position c')
  = {| BlobCursor.x :=
         BlobCursor.x m + (BlobCursor.x t - BlobCursor.x m) * lag * dt;
       BlobCursor.y :=
         BlobCursor.y m + (BlobCursor.y t - BlobCursor.y m) * lag * dt |} /\
  BlobCursor.lastTime (BlobCursor.animation c') = currentTime /\
  (Background.reachable b ->
   exists b',
     Background.animate b = Done b' /\
     Background.time b' = (Background.time b + Background.timeStep)%Q /\
     Background.uTime <$> Background.material b' = Some (Background.time b') /\
     (Background.isTransitioning b = true ->
      (Background.transitionProgress b + Background.transitionSpeed < 1)%Q ->
      Background.transitionProgress b'
      = (Background.transitionProgress b + Background.transitionSpeed)%Q)) /\
  (forall m, LoaderScene.material l = Some m ->
     LoaderScene.time <$> LoaderScene.material (stateOf (LoaderScene.animate l))
     = Some (LoaderScene.time m + LoaderScene.timeIncrement)%Q).
Proof.
  cbv zeta. split; [apply deltaTime_le_max|].
  split; [apply deltaTime_unclamped|]. split.
  { intros H. rewrite deltaTime_unclamped.
    - rewrite H. unfold BlobCursor.frameInterval. reflexivity.
    - rewrite H. unfold BlobCursor.frameInterval. lra. }
  split; [reflexivity|]. split; [reflexivity|]. split.
  - intros Hb. destruct (BackgroundFacts.reachable_inv b Hb) as [[u Hu] _ _ _ _ _].
    unfold Background.animate. rewrite Hu.
    destruct (Background.isTransitioning b).
    + unfold Background.advance.
      destruct (Qle_bool 1 (Background.transitionProgress b
                            + Background.transitionSpeed)) eqn:E.
      * eexists. split; [reflexivity|]. repeat split.
        intros _ Hlt. apply Qle_bool_iff in E. lra.
      * eexists. split; [reflexivity|]. repeat split.
    + eexists. split; [reflexivity|]. repeat split. discriminate.
  - intros m Hm. unfold LoaderScene.animate. rewrite Hm.
    destruct (LoaderScene.renderer l); reflexivity.
Qed.

Lemma ticks_normalise_or_step_fixed_witness :
  exists b',
    Background.animate Background.midFlight = Done b' /\
    Background.time b' = (Background.time Background.midFlight + Background.timeStep)%Q /\
    Background.transitionProgress b'
    = (Background.transitionProgress Background.midFlight
       + Background.transitionSpeed)%Q.
Proof.
  destruct (ticks_normalise_or_step_fixed BlobCursor.sqrtFloor
              (2 * BlobCursor.frameInterval) BlobCursor.desktopCursor
              Background.midFlight LoaderScene.running)
    as (_ & _ & _ & _ & _ & Hb & _).
  destruct (Hb (BackgroundFacts.reachable_towardsOrange 50))
    as (b' & E & Ht & _ & Hp).
  exists b'. split; [exact E|]. split; [exact Ht|].
  apply Hp; vm_compute; reflexivity.
Defined.

End DriverFacts.

(** ** The shaders *)

Module ShaderFacts.
Import Shaders.

Lemma scaled_about_half (v k : Q) :
  (0 <= v)%Q -> (v <= 1)%Q -> (0 <= k)%Q -> (k <= 1)%Q ->
  (0 <= (v - (1 # 2)) * k + (1 # 2))%Q /\ ((v - (1 # 2)) * k + (1 # 2) <= 1)%Q.
Proof.
  intros H0 H1 K0 K1.
  destruct (Qlt_le_dec v (1 # 2)) as [Hlt|Hge].
  - assert (A : (((1 # 2) - v) * k <= ((1 # 2) - v) * 1)%Q)
      by (apply Qmult_le_l; [lra | exact K1]).
    assert (B : (0 <= ((1 # 2) - v) * k)%Q) by (apply Qmult_le_0_compat; lra).
    assert (E : ((v - (1 # 2)) * k == - (((1 # 2) - v) * k))%Q) by ring.
    rewrite E. split; lra.
  - assert (A : (k * (v - (1 # 2)) <= 1 * (v - (1 # 2)))%Q)
      by (apply Qmult_le_compat_r; [exact K1 | lra]).
    assert (B : (0 <= k * (v - (1 # 2)))%Q) by (apply Qmult_le_0_compat; lra).
    assert (E : ((v - (1 # 2)) * k == k * (v - (1 # 2)))%Q) by ring.
    rewrite E. split; lra.
Qed.

Lemma ratio_within_unit (a b : Q) :
  (0 < a)%Q -> (a <= b)%Q -> (0 <= a / b)%Q /\ (a / b <= 1)%Q.
Proof.
  intros Ha Hab. split.
  - apply Qle_shift_div_l; lra.
  - apply Qle_shift_div_r; lra.
Qed.

(** X10: for a window of positive width and height, the cover-mode scaling
    keeps every point of the unit square inside the unit square (the texture
    is cropped, never read outside its edge by the scaling), leaves the
    middle of the screen on the middle of the texture, and changes only one
    of the two coordinates. *)
Theorem coverUv_stays_on_texture (w h : Q) (vUv : Q * Q) :
  (0 < w)%Q -> (0 < h)%Q ->
  (0 <= fst vUv)%Q -> (fst vUv <= 1)%Q -> (0 <= snd vUv)%Q -> (snd vUv <= 1)%Q ->
  let uv := coverUv (w, h) vUv in
  (0 <= fst uv)%Q /\ (fst uv <= 1)%Q /\ (0 <= snd uv)%Q /\ (snd uv <= 1)%Q /\
  (fst uv = fst vUv \/ snd uv = snd vUv) /\
  (fst (coverUv (w, h) centre) == 1 # 2)%Q /\
  (snd (coverUv (w, h) centre) == 1 # 2)%Q.
Proof.
  intros Hw Hh X0 X1 Y0 Y1. cbv zeta. unfold coverUv, centre. cbn [fst snd].
  assert (Hs : (0 < w / h)%Q) by (apply Qlt_shift_div_l; lra).
  destruct (Qle_bool (w / h) imageAspect) eqn:E; cbn [fst snd].
  - apply Qle_bool_iff in E.
    destruct (ratio_within_unit (w / h) imageAspect Hs E) as [K0 K1].
    destruct (scaled_about_half (fst vUv) _ X0 X1 K0 K1) as [A B].
    repeat split; try assumption; try (now right); ring.
  - assert (E' : (imageAspect <= w / h)%Q).
    { destruct (Qlt_le_dec (w / h) imageAspect) as [Hlt|Hge]; [|exact Hge].
      apply Qlt_le_weak, Qle_bool_iff in Hlt. congruence. }
    assert (Hi : (0 < imageAspect)%Q) by reflexivity.
    destruct (ratio_within_unit imageAspect (w / h) Hi E') as [K0 K1].
    destruct (scaled_about_half (snd vUv) _ Y0 Y1 K0 K1) as [A B].
    repeat split; try assumption; try (now left); ring.
Qed.

Lemma coverUv_stays_on_texture_witness :
  let uv := coverUv (1920, 1080)%Q (1, 0)%Q in
  (0 <= fst uv)%Q /\ (fst uv <= 1)%Q /\ (0 <= snd uv)%Q /\ (snd uv <= 1)%Q.
Proof.
  destruct (coverUv_stays_on_texture 1920 1080 (1, 0)%Q) as (A & B & C & D & _);
    try reflexivity; try (vm_compute; discriminate).
  cbv zeta. repeat split; assumption.
Defined.

Lemma fract_range (q : Q) : (0 <= fract q)%Q /\ (fract q < 1)%Q.
Proof.
  unfold fract, floorQ. pose proof (Qfloor_le q). pose proof (Qlt_floor q) as Hlt.
  rewrite inject_Z_plus in Hlt. change (inject_Z 1) with 1%Q in Hlt. split; lra.
Qed.

Lemma smooth_range (f : Q) :
  (0 <= f)%Q -> (f <= 1)%Q -> (0 <= smooth f)%Q /\ (smooth f <= 1)%Q.
Proof.
  intros H0 H1. unfold smooth. split.
  - apply Qmult_le_0_compat; [apply Qmult_le_0_compat; assumption | lra].
  - assert (E : (1 - f * f * (3 - 2 * f) == (1 - f) * (1 - f) * (1 + 2 * f))%Q) by ring.
    assert (P : (0 <= (1 - f) * (1 - f) * (1 + 2 * f))%Q).
    { apply Qmult_le_0_compat; [apply Qmult_le_0_compat|]; lra. }
    lra.
Qed.

Lemma sum_nonneg (x y : Q) : (0 <= x)%Q -> (0 <= y)%Q -> (0 <= x + y)%Q.
Proof. intros. lra. Qed.

(** A weighted mean of four values with weights from two fractions. *)
Lemma bilinear_range (a b c d ux uy lo hi : Q) :
  (0 <= ux)%Q -> (ux <= 1)%Q -> (0 <= uy)%Q -> (uy <= 1)%Q ->
  (lo <= a)%Q -> (lo <= b)%Q -> (lo <= c)%Q -> (lo <= d)%Q ->
  (a <= hi)%Q -> (b <= hi)%Q -> (c <= hi)%Q -> (d <= hi)%Q ->
  (lo <= mix a b ux + (c - a) * uy * (1 - ux) + (d - b) * ux * uy)%Q /\
  (mix a b ux + (c - a) * uy * (1 - ux) + (d - b) * ux * uy <= hi)%Q.
Proof.
  intros Ux0 Ux1 Uy0 Uy1 A0 B0 C0 D0 A1 B1 C1 D1. unfold mix.
  assert (W1 : (0 <= (1 - ux) * (1 - uy))%Q) by (apply Qmult_le_0_compat; lra).
  assert (W2 : (0 <= ux * (1 - uy))%Q) by (apply Qmult_le_0_compat; lra).
  assert (W3 : (0 <= (1 - ux) * uy)%Q) by (apply Qmult_le_0_compat; lra).
  assert (W4 : (0 <= ux * uy)%Q) by (apply Qmult_le_0_compat; lra).
  split.
  - assert (P1 : (0 <= (1 - ux) * (1 - uy) * (a - lo))%Q) by (apply Qmult_le_0_compat; lra).
    assert (P2 : (0 <= ux * (1 - uy) * (b - lo))%Q) by (apply Qmult_le_0_compat; lra).
    assert (P3 : (0 <= (1 - ux) * uy * (c - lo))%Q) by (apply Qmult_le_0_compat; lra).
    assert (P4 : (0 <= ux * uy * (d - lo))%Q) by (apply Qmult_le_0_compat; lra).
    apply Qle_minus_iff.
    setoid_replace (a * (1 - ux) + b * ux + (c - a) * uy * (1 - ux)
                    + (d - b) * ux * uy + - lo)%Q
      with ((1 - ux) * (1 - uy) * (a - lo) + ux * (1 - uy) * (b - lo)
            + ((1 - ux) * uy * (c - lo) + ux * uy * (d - lo)))%Q
      using relation Qeq by ring.
    apply sum_nonneg; apply sum_nonneg; assumption.
  - assert (P1 : (0 <= (1 - ux) * (1 - uy) * (hi - a))%Q) by (apply Qmult_le_0_compat; lra).
    assert (P2 : (0 <= ux * (1 - uy) * (hi - b))%Q) by (apply Qmult_le_0_compat; lra).
    assert (P3 : (0 <= (1 - ux) * uy * (hi - c))%Q) by (apply Qmult_le_0_compat; lra).
    assert (P4 : (0 <= ux * uy * (hi - d))%Q) by (apply Qmult_le_0_compat; lra).
    apply Qle_minus_iff.
    setoid_replace (hi + - (a * (1 - ux) + b * ux + (c - a) * uy * (1 - ux)
                            + (d - b) * ux * uy))%Q
      with ((1 - ux) * (1 - uy) * (hi - a) + ux * (1 - uy) * (hi - b)
            + ((1 - ux) * uy * (hi - c) + ux * uy * (hi - d)))%Q
      using relation Qeq by ring.
    apply sum_nonneg; apply sum_nonneg; assumption.
Qed.

Section NoiseRange.
Variable random : Q * Q -> Q.

(** X11: [noise] interpolates: when [random] stays within [lo, hi] the
    noise does too (so with [random] a fraction in [0, 1] the flow pattern is
    one), and on a point with whole coordinates it is [random] there. *)
Theorem noise_within_random_range (lo hi : Q) (st : Q * Q) :
  (forall p, lo <= random p /\ random p <= hi)%Q ->
  (lo <= noise random st)%Q /\ (noise random st <= hi)%Q /\
  (noise random (floorQ (fst st), floorQ (snd st))
   == random (floorQ (fst st), floorQ (snd st)))%Q.
Proof.
  intros Hr.
  destruct (fract_range (fst st)) as [Fx0 Fx1].
  destruct (fract_range (snd st)) as [Fy0 Fy1].
  destruct (smooth_range (fract (fst st)) Fx0 (Qlt_le_weak _ _ Fx1)) as [Ux0 Ux1].
  destruct (smooth_range (fract (snd st)) Fy0 (Qlt_le_weak _ _ Fy1)) as [Uy0 Uy1].
  assert (Hb : (lo <= noise random st)%Q /\ (noise random st <= hi)%Q).
  { unfold noise. cbn [fst snd]. apply bilinear_range; try assumption; apply Hr. }
  destruct Hb as [Hlo Hhi]. split; [exact Hlo|]. split; [exact Hhi|].
  unfold noise, mix. cbn [fst snd].
  assert (F : forall q, (fract (floorQ q) == 0)%Q).
  { intros q. unfold fract, floorQ. rewrite Qfloor_Z. ring. }
  assert (G : forall q, floorQ (floorQ q) = floorQ q).
  { intros q. unfold floorQ. now rewrite Qfloor_Z. }
  rewrite !G. unfold smooth. rewrite !F. ring.
Qed.
End NoiseRange.

Lemma noise_within_random_range_witness :
  (0 <= noise hash (3 # 4, 5 # 2))%Q /\ (noise hash (3 # 4, 5 # 2) <= 1)%Q.
Proof.
  destruct (noise_within_random_range hash 0 1 (3 # 4, 5 # 2)%Q) as (A & B & _).
  - intros p. unfold hash. destruct (fract_range (fst p * (129898 # 10000)
                                                   + snd p * (78233 # 1000))).
    split; [assumption | now apply Qlt_le_weak].
  - split; assumption.
Defined.

Lemma square_within_quarter (v : Q) :
  (0 <= v)%Q -> (v <= 1)%Q ->
  (0 <= (v - (1 # 2)) * (v - (1 # 2)))%Q /\
  ((v - (1 # 2)) * (v - (1 # 2)) <= 1 # 4)%Q.
Proof.
  intros H0 H1. split.
  - destruct (Qlt_le_dec v (1 # 2)).
    + setoid_replace ((v - (1 # 2)) * (v - (1 # 2)))%Q
        with (((1 # 2) - v) * ((1 # 2) - v))%Q using relation Qeq by ring.
      apply Qmult_le_0_compat; lra.
    + apply Qmult_le_0_compat; lra.
  - assert (P : (0 <= v * (1 - v))%Q) by (apply Qmult_le_0_compat; lra).
    apply Qle_minus_iff.
    setoid_replace ((1 # 4) + - ((v - (1 # 2)) * (v - (1 # 2))))%Q
      with (v * (1 - v))%Q using relation Qeq by ring.
    exact P.
Qed.

(** X12: the vignette of the loader shader only darkens, and by a quarter
    at most: on the screen it lies in [3/4, 1], it is 1 in the middle, and a
    channel that is not negative comes out between 3/4 of itself and
    itself. *)
Theorem loader_vignette_darkens_by_a_quarter (channel : Q) (vUv : Q * Q) :
  (0 <= fst vUv)%Q -> (fst vUv <= 1)%Q -> (0 <= snd vUv)%Q -> (snd vUv <= 1)%Q ->
  (0 <= channel)%Q ->
  (3 # 4 <= LoaderScene.vignette vUv)%Q /\ (LoaderScene.vignette vUv <= 1)%Q /\
  (LoaderScene.vignette centre == 1)%Q /\
  ((3 # 4) * channel <= LoaderScene.shaded channel vUv)%Q /\
  (LoaderScene.shaded channel vUv <= channel)%Q.
Proof.
  intros X0 X1 Y0 Y1 Hc.
  destruct (square_within_quarter (fst vUv) X0 X1) as [A0 A1].
  destruct (square_within_quarter (snd vUv) Y0 Y1) as [B0 B1].
  assert (V : (3 # 4 <= LoaderScene.vignette vUv)%Q /\ (LoaderScene.vignette vUv <= 1)%Q).
  { unfold LoaderScene.vignette. cbv zeta. split; lra. }
  destruct V as [V0 V1]. split; [exact V0|]. split; [exact V1|].
  split; [vm_compute; reflexivity|].
  unfold LoaderScene.shaded. split.
  - rewrite (Qmult_comm channel). apply Qmult_le_compat_r; assumption.
  - assert (H : (LoaderScene.vignette vUv * channel <= 1 * channel)%Q)
      by (apply Qmult_le_compat_r; assumption).
    rewrite (Qmult_comm channel). lra.
Qed.

Lemma loader_vignette_darkens_by_a_quarter_witness :
  (3 # 4 <= LoaderScene.vignette (0, 1)%Q)%Q /\
  (LoaderScene.shaded (1 # 2) (0, 1)%Q <= 1 # 2)%Q.
Proof.
  destruct (loader_vignette_darkens_by_a_quarter (1 # 2) (0, 1)%Q)
    as (A & _ & _ & _ & B); try (vm_compute; discriminate).
  split; assumption.
Defined.

End ShaderFacts.
